(** * Maintenance checklist generator: the viewer and the selector page

    A shallow embedding of the two React components of the application,
    [ChecklistViewer] (components/ChecklistViewer.tsx) and [Index]
    (pages/Index.tsx), and the properties of their logic: substring
    filtering, the checked-state map, the section order, the generate and
    copy handlers.

    Conventions of the embedding.
    - A JavaScript string is a sequence of UTF-16 code units.  The model
      covers the strings whose code units are below U+0100 and represents
      each unit by one [ascii]; on these strings [toLowerCase] acts unit by
      unit and [includes] compares units.
    - A JavaScript object used as a dictionary whose enumeration order is
      observable (the [sections] of a checklist, the parsed JSON objects) is
      an association list in enumeration order; the checked-state record,
      whose order is never observed, is a [gmap].
    - Hook state is passed explicitly; an event handler is a function from
      the state it closes over to the list of effects it performs. *)

From Stdlib Require Import Ascii String List NArith Permutation.
From stdpp Require Import gmap strings list pretty.

Local Open Scope string_scope.
Set Warnings "-register-all".

(* Let [simpl] compute the append of strings that start with known units. *)
#[local] Arguments String.append : simpl nomatch.
Set Default Proof Using "Type".

(* ===================================================================== *)
(** ** JavaScript strings *)
(* ===================================================================== *)

(** Truthiness of a string: only the empty string is falsy. *)
Definition truthy (s : string) : bool :=
  match s with
  | EmptyString => false
  | String _ _ => true
  end.

(** The code units that have a lowercase mapping: A-Z, and in the Latin-1
    supplement U+00C0-U+00D6 and U+00D8-U+00DE. *)
Definition is_upper (c : ascii) : bool :=
  let n := N_of_ascii c in
  ((65 <=? n) && (n <=? 90) || (192 <=? n) && (n <=? 214)
   || (216 <=? n) && (n <=? 222))%N.

Definition lower_unit (c : ascii) : ascii :=
  if is_upper c then ascii_of_N (N_of_ascii c + 32) else c.

(** [String.prototype.toLowerCase], on the code units below U+0100, where
    it maps unit by unit.  (Beyond them it need not: U+0130 lowers to two
    units.) *)
Fixpoint toLowerCase (s : string) : string :=
  match s with
  | EmptyString => EmptyString
  | String c s' => String (lower_unit c) (toLowerCase s')
  end.

(** [String.prototype.includes]: [q] occurs in [s] at some position. *)
Fixpoint includes (s q : string) : bool :=
  if String.prefix q s then true
  else match s with
       | EmptyString => false
       | String _ s' => includes s' q
       end.

(** A template literal with a non-negative integer: its decimal digits. *)
Definition number_to_string (n : nat) : string := pretty n.

(* ===================================================================== *)
(** ** The checklist record *)
(* ===================================================================== *)

Record ChecklistData := mkChecklistData {
  id : string;
  title : string;
  equipment : string;
  industry : string;
  frequency : string;
  estimatedTime : string;
  version : string;
  lastUpdated : string;
  sections : list (string * list string)
}.

(** Property read [o[name]] on an object given by its own properties. *)
Fixpoint get_prop {V} (o : list (string * V)) (name : string) : option V :=
  match o with
  | [] => None
  | (k, v) :: o' => if String.eqb k name then Some v else get_prop o' name
  end.

(** An object has each of its keys once. *)
Definition distinct_keys {V} (o : list (string * V)) : Prop :=
  NoDup (fst <$> o).

(* ===================================================================== *)
(** ** ChecklistViewer *)
(* ===================================================================== *)

Definition item_key (sectionName : string) (itemIndex : nat) : string :=
  sectionName +:+ "-" +:+ number_to_string itemIndex.

(** [checkedItems[key] || false] *)
Definition isChecked (checkedItems : gmap string bool) (key : string) : bool :=
  default false (checkedItems !! key).

(** [handleItemCheck]: the state updater it passes to [setCheckedItems],
    [prev => ({...prev, [key]: !prev[key]})]; a missing entry reads
    [undefined], whose negation is [true]. *)
Definition handleItemCheck (sectionName : string) (itemIndex : nat)
    (prev : gmap string bool) : gmap string bool :=
  let key := item_key sectionName itemIndex in
  <[key := negb (default false (prev !! key))]> prev.

Definition filterItems (searchQuery : string) (items : list string)
    : list string :=
  if negb (truthy searchQuery) then items
  else List.filter
         (fun item => includes (toLowerCase item) (toLowerCase searchQuery))
         items.

Definition sectionOrder : list string :=
  [ "Safety Precautions";
    "Required Tools and Equipment";
    "Pre-Maintenance Procedures";
    "Cleaning Procedures";
    "Mechanical Inspection";
    "Calibration";
    "Lubrication";
    "Quality Checks";
    "Documentation";
    "Final Checks";
    "Notes" ].

(** One checkable row: the checkbox [id] (also the label's [htmlFor]), its
    [checked] prop, the label text, and its [onCheckedChange] callback as
    the updater it hands to [setCheckedItems]. *)
Record Row := mkRow {
  row_id : string;
  row_checked : bool;
  row_text : string;
  row_onCheckedChange : gmap string bool -> gmap string bool
}.

(** One section card: heading, rows, and whether the
    "No items in this section" paragraph is present. *)
Record SectionCard := mkSectionCard {
  card_heading : string;
  card_rows : list Row;
  card_no_items : bool
}.

Section Viewer.
Variable checklist : ChecklistData.
Variable searchQuery : string.
Variable checkedItems : gmap string bool.

Definition renderRow (sectionName : string) (index : nat) (item : string)
    : Row :=
  let key := item_key sectionName index in
  let isChecked := isChecked checkedItems key in
  {| row_id := key;
     row_checked := isChecked;
     row_text := item;
     row_onCheckedChange := handleItemCheck sectionName index |}.

(** The callback of [sectionOrder.map]; [None] is the [null] it returns
    for an omitted section. *)
Definition renderSection (sectionName : string) : option SectionCard :=
  let items := default [] (get_prop (sections checklist) sectionName) in
  let filteredItems := filterItems searchQuery items in
  if (length filteredItems =? 0)%nat && truthy searchQuery then None
  else Some {| card_heading := sectionName;
               card_rows := imap (renderRow sectionName) filteredItems;
               card_no_items :=
                 (length filteredItems =? 0)%nat && negb (truthy searchQuery) |}.

Definition renderSections : list (option SectionCard) :=
  map renderSection sectionOrder.

(** The cards that reach the page: React skips [null] children. *)
Definition displayedSections : list SectionCard :=
  omap (fun card => card) renderSections.
End Viewer.

(* ===================================================================== *)
(** ** Index: the selector page *)
(* ===================================================================== *)

Record Toast := mkToast {
  toast_title : string;
  toast_description : string;
  toast_destructive : bool
}.

(** What a handler does to the outside: the state setters it calls (React
    queues them and applies them in order once the handler is left, also
    when it is left by an exception), the notifications it raises and the
    clipboard writes it issues. *)
Inductive Effect :=
| SetSelectedChecklist (checklist : option ChecklistData)
| SetShowChecklist (show : bool)
| ShowToast (t : Toast)
| ClipboardWriteText (text : string).

(** How a handler is left. *)
Inductive Completion :=
| Returned
| ThrewTypeError.

Record IndexState := mkIndexState {
  selectedChecklistId : string;
  selectedChecklist : option ChecklistData;
  searchQuery : string;
  showChecklist : bool
}.

(** The state of the first render: the [useState] initial values. *)
Definition initialIndexState : IndexState :=
  {| selectedChecklistId := EmptyString;
     selectedChecklist := None;
     searchQuery := EmptyString;
     showChecklist := false |}.

Definition apply_effect (st : IndexState) (e : Effect) : IndexState :=
  match e with
  | SetSelectedChecklist c =>
      {| selectedChecklistId := selectedChecklistId st;
         selectedChecklist := c;
         searchQuery := searchQuery st;
         showChecklist := showChecklist st |}
  | SetShowChecklist b =>
      {| selectedChecklistId := selectedChecklistId st;
         selectedChecklist := selectedChecklist st;
         searchQuery := searchQuery st;
         showChecklist := b |}
  | ShowToast _ => st
  | ClipboardWriteText _ => st
  end.

Definition apply_effects (st : IndexState) (es : list Effect) : IndexState :=
  fold_left apply_effect es st.

Definition toasts_of (es : list Effect) : list Toast :=
  omap (fun e => match e with ShowToast t => Some t | _ => None end) es.

Definition clipboard_writes_of (es : list Effect) : list string :=
  omap (fun e => match e with ClipboardWriteText s => Some s | _ => None end) es.

Definition state_setters_of (es : list Effect) : list Effect :=
  List.filter
    (fun e => match e with
              | SetSelectedChecklist _ | SetShowChecklist _ => true
              | _ => false
              end) es.

Definition select_warning : Toast :=
  {| toast_title := "Please select a checklist";
     toast_description := "Choose a checklist from the dropdown to generate.";
     toast_destructive := true |}.

Definition generated_toast (checklist : ChecklistData) : Toast :=
  {| toast_title := "Checklist generated!";
     toast_description := title checklist +:+ " is ready for use.";
     toast_destructive := false |}.

Definition copied_toast : Toast :=
  {| toast_title := "JSON copied!";
     toast_description := "Checklist data has been copied to clipboard.";
     toast_destructive := false |}.

(* ===================================================================== *)
(** ** JSON text: [JSON.stringify] and [JSON.parse] *)
(* ===================================================================== *)

(** The JSON values a checklist record is made of: strings, arrays and
    objects.  An object lists its members in enumeration order. *)
Inductive json :=
| JString (s : string)
| JArray (elements : list json)
| JObject (members : list (string * json)).

Definition dquote : ascii := "034"%char.
Definition backslash : ascii := "092"%char.
Definition newline : string := String "010"%char EmptyString.

Definition hex_digit (n : N) : ascii :=
  match n with
  | 0 => "0" | 1 => "1" | 2 => "2" | 3 => "3" | 4 => "4" | 5 => "5"
  | 6 => "6" | 7 => "7" | 8 => "8" | 9 => "9" | 10 => "a" | 11 => "b"
  | 12 => "c" | 13 => "d" | 14 => "e" | _ => "f"
  end%N%char.

(** [UnicodeEscape] of a code unit below U+0100. *)
Definition UnicodeEscape (n : N) : string :=
  "\u00" +:+ String (hex_digit (n / 16)) (String (hex_digit (n mod 16)) EmptyString).

(** One code unit inside [QuoteJSONString]: the two-character escapes of
    the specification's table, [\uXXXX] for the other control characters,
    the unit itself otherwise. *)
Definition quote_unit (c : ascii) : string :=
  match N_of_ascii c with
  | 8 => "\b"
  | 9 => "\t"
  | 10 => "\n"
  | 12 => "\f"
  | 13 => "\r"
  | 34 => String backslash (String dquote EmptyString)
  | 92 => "\\"
  | n => if n <? 32 then UnicodeEscape n else String c EmptyString
  end%N.

Fixpoint quote_units (s : string) : string :=
  match s with
  | EmptyString => EmptyString
  | String c s' => quote_unit c +:+ quote_units s'
  end.

Definition QuoteJSONString (s : string) : string :=
  String dquote (quote_units s +:+ String dquote EmptyString).

(** The gap of [JSON.stringify(value, null, 2)]: two spaces. *)
Definition gap : string := "  ".

(** [SerializeJSONProperty], with [SerializeJSONArray] and
    [SerializeJSONObject] inlined, for a non-empty gap. *)
Fixpoint SerializeJSONProperty (indent : string) (value : json) : string :=
  match value with
  | JString s => QuoteJSONString s
  | JArray elements =>
      let stepback := indent in
      let indent := indent +:+ gap in
      let partial := map (SerializeJSONProperty indent) elements in
      match partial with
      | [] => "[]"
      | _ :: _ =>
          let separator := "," +:+ newline +:+ indent in
          let properties := String.concat separator partial in
          "[" +:+ newline +:+ indent +:+ properties +:+ newline +:+ stepback
          +:+ "]"
      end
  | JObject members =>
      let stepback := indent in
      let indent := indent +:+ gap in
      let partial :=
        map (fun m : string * json =>
               QuoteJSONString (fst m) +:+ ": "
               +:+ SerializeJSONProperty indent (snd m)) members in
      match partial with
      | [] => "{}"
      | _ :: _ =>
          let separator := "," +:+ newline +:+ indent in
          let properties := String.concat separator partial in
          "{" +:+ newline +:+ indent +:+ properties +:+ newline +:+ stepback
          +:+ "}"
      end
  end.

Definition JSON_stringify (value : json) : string :=
  SerializeJSONProperty EmptyString value.

(** JSON white space: tab, line feed, carriage return, space. *)
Definition is_ws (c : ascii) : bool :=
  match N_of_ascii c with
  | 9 | 10 | 13 | 32 => true
  | _ => false
  end%N.

Fixpoint skip_ws (s : string) : string :=
  match s with
  | EmptyString => EmptyString
  | String c r => if is_ws c then skip_ws r else s
  end.

Definition hex_value (c : ascii) : option N :=
  let n := N_of_ascii c in
  (if (48 <=? n) && (n <=? 57) then Some (n - 48)
   else if (97 <=? n) && (n <=? 102) then Some (n - 87)
   else if (65 <=? n) && (n <=? 70) then Some (n - 55)
   else None)%N.

(** The code unit of [\uXXXX]; units from U+0100 on are outside the model
    and rejected. *)
Definition unit_of_hex4 (h1 h2 h3 h4 : ascii) : option ascii :=
  a ← hex_value h1; b ← hex_value h2; c ← hex_value h3; d ← hex_value h4;
  let n := (((a * 16 + b) * 16 + c) * 16 + d)%N in
  if (n <? 256)%N then Some (ascii_of_N n) else None.

Definition cons_unit (c : ascii) (r : option (string * string))
    : option (string * string) :=
  match r with
  | Some (s, rest) => Some (String c s, rest)
  | None => None
  end.

(** The characters of a JSON string after its opening quote, up to and
    including the closing quote: the decoded string and the remaining text. *)
Fixpoint parse_chars (s : string) : option (string * string) :=
  match s with
  | EmptyString => None
  | String c r =>
      if Ascii.eqb c dquote then Some (EmptyString, r)
      else if Ascii.eqb c backslash then
        match r with
        | String e r' =>
            if Ascii.eqb e dquote then cons_unit dquote (parse_chars r')
            else if Ascii.eqb e backslash then cons_unit backslash (parse_chars r')
            else if Ascii.eqb e "/" then cons_unit "/" (parse_chars r')
            else if Ascii.eqb e "b" then cons_unit "008" (parse_chars r')
            else if Ascii.eqb e "f" then cons_unit "012" (parse_chars r')
            else if Ascii.eqb e "n" then cons_unit "010" (parse_chars r')
            else if Ascii.eqb e "r" then cons_unit "013" (parse_chars r')
            else if Ascii.eqb e "t" then cons_unit "009" (parse_chars r')
            else if Ascii.eqb e "u" then
              match r' with
              | String h1 (String h2 (String h3 (String h4 r''))) =>
                  match unit_of_hex4 h1 h2 h3 h4 with
                  | Some u => cons_unit u (parse_chars r'')
                  | None => None
                  end
              | _ => None
              end
            else None
        | EmptyString => None
        end
      else if (N_of_ascii c <? 32)%N then None
      else cons_unit c (parse_chars r)
  end%char.

(** [CreateDataProperty] on an object under construction: a key already
    present keeps its place and takes the new value. *)
Fixpoint set_prop {V} (o : list (string * V)) (k : string) (v : V)
    : list (string * V) :=
  match o with
  | [] => [(k, v)]
  | (k', v') :: o' =>
      if String.eqb k' k then (k', v) :: o' else (k', v') :: set_prop o' k v
  end.

Definition object_of {V} (members : list (string * V)) : list (string * V) :=
  fold_left (fun o m => set_prop o (fst m) (snd m)) members [].

(** The recursive-descent parser.  Each call takes one unit of [fuel]; the
    text is positioned at the first character of what is to be read. *)
Fixpoint parse_value (fuel : nat) (s : string) : option (json * string) :=
  match fuel with
  | O => None
  | S fuel =>
      match s with
      | EmptyString => None
      | String c r =>
          if Ascii.eqb c dquote then
            match parse_chars r with
            | Some (str, r') => Some (JString str, r')
            | None => None
            end
          else if Ascii.eqb c "[" then
            match skip_ws r with
            | String "]" r' => Some (JArray [], r')
            | r1 =>
                match parse_elements fuel r1 with
                | Some (l, r') => Some (JArray l, r')
                | None => None
                end
            end
          else if Ascii.eqb c "{" then
            match skip_ws r with
            | String "}" r' => Some (JObject [], r')
            | r1 =>
                match parse_members fuel r1 with
                | Some (l, r') => Some (JObject (object_of l), r')
                | None => None
                end
            end
          else None
      end
  end%char
with parse_elements (fuel : nat) (s : string)
    : option (list json * string) :=
  match fuel with
  | O => None
  | S fuel =>
      match parse_value fuel s with
      | Some (v, r) =>
          match skip_ws r with
          | String "," r' =>
              match parse_elements fuel (skip_ws r') with
              | Some (l, r'') => Some (v :: l, r'')
              | None => None
              end
          | String "]" r' => Some ([v], r')
          | _ => None
          end
      | None => None
      end
  end%char
with parse_members (fuel : nat) (s : string)
    : option (list (string * json) * string) :=
  match fuel with
  | O => None
  | S fuel =>
      match s with
      | String c r =>
          if Ascii.eqb c dquote then
            match parse_chars r with
            | Some (k, r1) =>
                match skip_ws r1 with
                | String ":" r2 =>
                    match parse_value fuel (skip_ws r2) with
                    | Some (v, r3) =>
                        match skip_ws r3 with
                        | String "," r4 =>
                            match parse_members fuel (skip_ws r4) with
                            | Some (l, r5) => Some ((k, v) :: l, r5)
                            | None => None
                            end
                        | String "}" r4 => Some ([(k, v)], r4)
                        | _ => None
                        end
                    | None => None
                    end
                | _ => None
                end
            | None => None
            end
          else None
      | EmptyString => None
      end
  end%char.

(** [JSON.parse]: one value between optional white space. *)
Definition JSON_parse (text : string) : option json :=
  match parse_value (String.length text) (skip_ws text) with
  | Some (v, r) =>
      match skip_ws r with
      | EmptyString => Some v
      | String _ _ => None
      end
  | None => None
  end.

(** The checklist record as a JSON value, its properties in the order of the
    [ChecklistData] interface. *)
Definition json_of_sections (o : list (string * list string))
    : list (string * json) :=
  map (fun m => (fst m, JArray (map JString (snd m)))) o.

Definition json_of_checklist (c : ChecklistData) : json :=
  JObject
    [ ("id", JString (id c));
      ("title", JString (title c));
      ("equipment", JString (equipment c));
      ("industry", JString (industry c));
      ("frequency", JString (frequency c));
      ("estimatedTime", JString (estimatedTime c));
      ("version", JString (version c));
      ("lastUpdated", JString (lastUpdated c));
      ("sections", JObject (json_of_sections (sections c))) ].

(* ===================================================================== *)
(** ** Index: the handlers *)
(* ===================================================================== *)

Section Index.
(** The imported static dataset [data.json]: an object from checklist
    identifier to checklist record. *)
Variable checklistData : list (string * ChecklistData).

(** [handleGenerateChecklist], run in a render whose state is [st]. *)
Definition handleGenerateChecklist (st : IndexState)
    : list Effect * Completion :=
  if negb (truthy (selectedChecklistId st)) then
    ([ShowToast select_warning], Returned)
  else
    let checklist := get_prop checklistData (selectedChecklistId st) in
    match checklist with
    | Some c =>
        ([SetSelectedChecklist checklist; SetShowChecklist true;
          ShowToast (generated_toast c)], Returned)
    | None =>
        (* [checklist.title] on [undefined], while the argument of the
           second [toast] call is built *)
        ([SetSelectedChecklist checklist; SetShowChecklist true],
         ThrewTypeError)
    end.

(** [handleCopyJSON], run in a render whose state is [st]. *)
Definition handleCopyJSON (st : IndexState) : list Effect * Completion :=
  match selectedChecklist st with
  | None => ([], Returned)
  | Some c =>
      ([ClipboardWriteText (JSON_stringify (json_of_checklist c));
        ShowToast copied_toast], Returned)
  end.

(** The page together with the viewer instance it has mounted, if any: the
    instance owns the [checkedItems] hook state. *)
Record App := mkApp {
  page : IndexState;
  viewer : option (gmap string bool)
}.

Definition initialApp : App :=
  {| page := initialIndexState; viewer := None |}.

(** The condition under which [Index] renders the [ChecklistViewer]
    element: [showChecklist && selectedChecklist]. *)
Definition viewer_rendered (st : IndexState) : bool :=
  showChecklist st &&
  match selectedChecklist st with Some _ => true | None => false end.

(** React's reconciliation of the viewer element, which [Index] renders at
    one fixed place of its tree, always of type [ChecklistViewer] and never
    with a [key]: an instance that is mounted and rendered again keeps its
    hook state, an element rendered where none was mounts a fresh instance
    whose [checkedItems] is the initial [{}], and an instance no longer
    rendered is unmounted. *)
Definition reconcile (mounted : option (gmap string bool)) (st : IndexState)
    : option (gmap string bool) :=
  if viewer_rendered st then
    match mounted with
    | Some checkedItems => Some checkedItems
    | None => Some ∅
    end
  else None.

Inductive Event :=
| OnValueChange (value : string)
| ClickGenerate
| OnSearchChange (value : string)
| OnCheckedChange (sectionName : string) (index : nat)
| ClickCopyJSON.

Definition find_row (cards : list SectionCard) (sectionName : string)
    (index : nat) : option Row :=
  match List.find (fun card => String.eqb (card_heading card) sectionName)
                  cards with
  | Some card => card_rows card !! index
  | None => None
  end.

(** The rendered row under the given section heading at the given place,
    for the current state of the page and of the mounted viewer. *)
Definition rendered_row (app : App) (sectionName : string) (index : nat)
    : option Row :=
  match viewer app, selectedChecklist (page app) with
  | Some checkedItems, Some checklist =>
      if viewer_rendered (page app) then
        find_row (displayedSections checklist (searchQuery (page app))
                                    checkedItems) sectionName index
      else None
  | _, _ => None
  end.

Definition rerender (app : App) (st : IndexState) : App :=
  {| page := st; viewer := reconcile (viewer app) st |}.

(** One user event, its state updates, and the render that follows. *)
Definition step (app : App) (ev : Event) : App :=
  let st := page app in
  match ev with
  | OnValueChange value =>
      rerender app
        {| selectedChecklistId := value;
           selectedChecklist := selectedChecklist st;
           searchQuery := searchQuery st;
           showChecklist := showChecklist st |}
  | ClickGenerate =>
      (* the button is [disabled] while no identifier is selected *)
      if negb (truthy (selectedChecklistId st)) then app
      else rerender app (apply_effects st (fst (handleGenerateChecklist st)))
  | OnSearchChange value =>
      rerender app
        {| selectedChecklistId := selectedChecklistId st;
           selectedChecklist := selectedChecklist st;
           searchQuery := value;
           showChecklist := showChecklist st |}
  | OnCheckedChange sectionName index =>
      match rendered_row app sectionName index, viewer app with
      | Some row, Some checkedItems =>
          {| page := st;
             viewer := Some (row_onCheckedChange row checkedItems) |}
      | _, _ => app
      end
  | ClickCopyJSON =>
      rerender app (apply_effects st (fst (handleCopyJSON st)))
  end.

Definition run (app : App) (evs : list Event) : App :=
  fold_left step evs app.
End Index.

(* ===================================================================== *)
(** ** Vocabulary of the specification *)
(* ===================================================================== *)






(** Every object of a JSON value has distinct keys. *)
Fixpoint wf_json (v : json) : Prop :=
  match v with
  | JString _ => True
  | JArray elements => fold_right (fun e acc => wf_json e ∧ acc) True elements
  | JObject members =>
      distinct_keys members ∧
      fold_right (fun m acc => wf_json (snd m) ∧ acc) True members
  end.

(** No unit of [s] is the separator [-] of the row keys. *)
Fixpoint dash_free (s : string) : bool :=
  match s with
  | EmptyString => true
  | String c s' => negb (Ascii.eqb c "-") && dash_free s'
  end.

(** The two locals of the [sectionOrder.map] callback: the items of a
    section, [checklist.sections[sectionName] || []], and what the filter
    leaves of them. *)
Definition section_items (checklist : ChecklistData) (sectionName : string)
    : list string :=
  default [] (get_prop (sections checklist) sectionName).

Definition filtered_items (checklist : ChecklistData) (searchQuery : string)
    (sectionName : string) : list string :=
  filterItems searchQuery (section_items checklist sectionName).


(** A checklist whose Notes section holds two items, for the examples. *)
Definition two_notes : ChecklistData :=
  {| id := "pump"; title := "Pump"; equipment := "Pump"; industry := "Water";
     frequency := "Monthly"; estimatedTime := "1 hour"; version := "1.0";
     lastUpdated := "2024-01-15";
     sections := [("Notes", ["Check oil level"; "Record pressure"])] |}.


(** The example checklist with a second section, and the same record with
    the keys of its section map in the other order. *)
Definition two_sections : ChecklistData :=
  {| id := "press"; title := "Press"; equipment := "Press";
     industry := "Metal"; frequency := "Weekly"; estimatedTime := "2 hours";
     version := "2.1"; lastUpdated := "2024-03-01";
     sections := [("Notes", ["Log the run"]);
                  ("Calibration", ["Zero the gauge"; "Check the offset"])] |}.

Definition two_sections_reordered : ChecklistData :=
  {| id := "press"; title := "Press"; equipment := "Press";
     industry := "Metal"; frequency := "Weekly"; estimatedTime := "2 hours";
     version := "2.1"; lastUpdated := "2024-03-01";
     sections := [("Calibration", ["Zero the gauge"; "Check the offset"]);
                  ("Notes", ["Log the run"])] |}.

(** A dataset of two checklists. *)
Definition example_data : list (string * ChecklistData) :=
  [("pump", two_notes); ("press", two_sections)].


(** A session: the pump checklist is generated and its first Notes item
    ticked, then the press checklist is selected and generated. *)
Definition two_checklists_session : list Event :=
  [OnValueChange "pump"; ClickGenerate; OnCheckedChange "Notes" 0;
   OnValueChange "press"; ClickGenerate].


(** A bound on the calls the parser makes to read a value back. *)
Fixpoint json_size (v : json) : nat :=
  match v with
  | JString _ => 1
  | JArray elements =>
      S (fold_right (fun e acc => S (json_size e) + acc) 0 elements)
  | JObject members =>
      S (fold_right (fun m acc => S (json_size (snd m)) + acc) 0 members)
  end.

(** A string of JSON white space only, as every indentation is. *)
Fixpoint blank (s : string) : bool :=
  match s with
  | EmptyString => true
  | String c s' => is_ws c && blank s'
  end.


(** The text starts with the first character of a serialized value. *)
Definition starts_value (t : string) : Prop :=
  ∃ c r, t = String c r ∧ (c = dquote ∨ c = "["%char ∨ c = "{"%char).


(** What the round trip asks of one value: read back from its text, at any
    indentation and before any remaining text, with enough fuel. *)
Definition reads_back (v : json) : Prop :=
  ∀ indent fuel rest,
    blank indent = true → (json_size v ≤ fuel)%nat → wf_json v →
    parse_value fuel (SerializeJSONProperty indent v +:+ rest) = Some (v, rest).


(** A session: the pump checklist is generated, the search string
    "pressure" is typed, the one row left in Notes is ticked, and the search
    string is cleared. *)
Definition tick_under_search_session : list Event :=
  [OnValueChange "pump"; ClickGenerate; OnSearchChange "pressure";
   OnCheckedChange "Notes" 0; OnSearchChange EmptyString].

(** JSON texts written by hand: an array with white space around its
    tokens and escapes in its strings, and an object that repeats a key. *)
Definition loose_array_text : string :=
  " [ " +:+ String dquote ("a\u0042\/" +:+ String dquote (" ," +:+ newline
  +:+ String dquote ("\t" +:+ String dquote "] "))).

Definition repeated_key_text : string :=
  "{" +:+ String dquote ("k" +:+ String dquote (":" +:+ String dquote ("x"
  +:+ String dquote ("," +:+ String dquote ("k" +:+ String dquote (":"
  +:+ String dquote ("y" +:+ String dquote "}"))))))).


(* ===================================================================== *)
(** ** Index: what the page renders around the viewer *)
(* ===================================================================== *)

(** One [SelectItem] of the dropdown: its [value] and the text it shows. *)
Record SelectItem := mkSelectItem {
  item_value : string;
  item_label : string
}.

(** [Object.values(checklistData)] *)
Definition checklists (checklistData : list (string * ChecklistData))
    : list ChecklistData :=
  map snd checklistData.

(** The items of the dropdown: one per checklist, with the record's [id] as
    value and its [title] as text. *)
Definition select_items (checklistData : list (string * ChecklistData))
    : list SelectItem :=
  map (fun checklist => {| item_value := id checklist;
                           item_label := title checklist |})
      (checklists checklistData).

(** The [disabled] prop of the generate button: [!selectedChecklistId]. *)
Definition generate_disabled (st : IndexState) : bool :=
  negb (truthy (selectedChecklistId st)).

(** The search field with the copy and print buttons is rendered under the
    same condition as the viewer. *)
Definition toolbar_rendered (st : IndexState) : bool :=
  viewer_rendered st.

(** The welcome card is rendered under [!showChecklist]. *)
Definition welcome_rendered (st : IndexState) : bool :=
  negb (showChecklist st).

(** The dataset is keyed by the identifiers of its records. *)
Definition keyed_by_id (checklistData : list (string * ChecklistData))
    : Prop :=
  distinct_keys checklistData
  ∧ Forall (fun entry => id (snd entry) = fst entry) checklistData.

(** An event the page can receive from its widgets: the dropdown reports
    the value of one of its items. *)
Definition from_widgets (checklistData : list (string * ChecklistData))
    (ev : Event) : bool :=
  match ev with
  | OnValueChange value =>
      bool_decide (value ∈ item_value <$> select_items checklistData)
  | _ => true
  end.

Definition is_tick (ev : Event) : bool :=
  match ev with
  | OnCheckedChange _ _ => true
  | _ => false
  end.

(** The page and its viewer agree: the selected identifier, if any, is a key
    of the dataset; the show flag is set exactly when a checklist is stored;
    the stored checklist is a record of the dataset; and a viewer instance
    is mounted exactly when the viewer is rendered. *)
Definition consistent (checklistData : list (string * ChecklistData))
    (app : App) : Prop :=
  (selectedChecklistId (page app) = EmptyString
   ∨ is_Some (get_prop checklistData (selectedChecklistId (page app))))
  ∧ (showChecklist (page app) = true ↔ is_Some (selectedChecklist (page app)))
  ∧ (∀ c, selectedChecklist (page app) = Some c → (id c, c) ∈ checklistData)
  ∧ (is_Some (viewer app) ↔ viewer_rendered (page app) = true).

(** The value of the last search input among the events, [q] if none. *)
Definition last_search (q : string) (events : list Event) : string :=
  fold_left (fun q ev => match ev with
                         | OnSearchChange value => value
                         | _ => q
                         end) events q.

(** A dataset whose one key differs from the [id] of its record. *)
Definition miskeyed_data : list (string * ChecklistData) :=
  [("pump-1", two_notes)].

(** All rows of a display, section after section. *)
Definition displayed_rows (cards : list SectionCard) : list Row :=
  concat (card_rows <$> cards).


(** A row with its checkbox flipped, and a card in which the row at one
    place, if it is a row of this card, is flipped. *)
Definition tick_row (row : Row) : Row :=
  {| row_id := row_id row;
     row_checked := negb (row_checked row);
     row_text := row_text row;
     row_onCheckedChange := row_onCheckedChange row |}.

Definition tick_card (sectionName : string) (index : nat) (card : SectionCard)
    : SectionCard :=
  {| card_heading := card_heading card;
     card_rows :=
       imap (fun position row =>
               if bool_decide ((card_heading card, position)
                               = (sectionName, index))
               then tick_row row else row)
            (card_rows card);
     card_no_items := card_no_items card |}.


(* ===================================================================== *)
(** * Properties *)
(* ===================================================================== *)

(** ** Strings *)

Lemma append_nil_r (s : string) : s +:+ EmptyString = s.
Proof. induction s as [|c s IH]; simpl; [done | by rewrite IH]. Qed.

Lemma append_assoc (a b c : string) : (a +:+ b) +:+ c = a +:+ b +:+ c.
Proof. induction a as [|x a IH]; simpl; [done | by rewrite IH]. Qed.

Lemma length_append (a b : string) :
  String.length (a +:+ b) = String.length a + String.length b.
Proof. induction a as [|x a IH]; simpl; [done | by rewrite IH]. Qed.













(** ** Filtering *)



Lemma truthy_false (s : string) : truthy s = false ↔ s = EmptyString.
Proof. destruct s; simpl; split; congruence. Qed.


(** ** Row keys *)

Lemma dash_free_pretty_N_go (x : N) (s : string) :
  dash_free s = true → dash_free (pretty_N_go x s) = true.
Proof.
  revert s. induction (N.lt_wf_0 x) as [x _ IH]; intros s Hs.
  destruct (decide (x = 0)%N) as [-> | Hx]; [by rewrite pretty_N_go_0 |].
  rewrite pretty_N_go_step by lia. apply IH.
  - apply N.div_lt; lia.
  - simpl. rewrite Hs. unfold pretty_N_char. by repeat case_match.
Qed.

Lemma dash_free_number (n : nat) : dash_free (number_to_string n) = true.
Proof.
  unfold number_to_string, pretty, pretty_nat, pretty, pretty_N.
  case_decide; [done |]. by apply dash_free_pretty_N_go.
Qed.

Lemma dash_free_append (a b : string) :
  dash_free (a +:+ b) = dash_free a && dash_free b.
Proof.
  induction a as [|c a IH]; simpl; [done |]. by rewrite IH, andb_assoc.
Qed.

(** The separator [-] followed by a dash-free suffix determines where the
    prefix ends. *)
Lemma split_at_last_dash (a a' d d' : string) :
  dash_free d = true → dash_free d' = true →
  a +:+ "-" +:+ d = a' +:+ "-" +:+ d' → a = a' ∧ d = d'.
Proof.
  intros Hd Hd'. revert a'. induction a as [|c a IH]; intros [|c' a'] H;
    simpl in H.
  - by injection H.
  - injection H as <- ->. rewrite dash_free_append in Hd. simpl in Hd.
    by rewrite andb_false_r in Hd.
  - injection H as -> <-. rewrite dash_free_append in Hd'. simpl in Hd'.
    by rewrite andb_false_r in Hd'.
  - injection H as -> H. apply IH in H as [-> ->]. done.
Qed.

Lemma item_key_inj (s s' : string) (i i' : nat) :
  item_key s i = item_key s' i' → s = s' ∧ i = i'.
Proof.
  unfold item_key. intros H.
  apply split_at_last_dash in H as [-> H]; auto using dash_free_number.
  split; [done |]. by apply (inj pretty) in H.
Qed.

(** ** The checked-state map *)

Lemma isChecked_handleItemCheck_same (m : gmap string bool) (s : string) (i : nat) :
  isChecked (handleItemCheck s i m) (item_key s i)
  = negb (isChecked m (item_key s i)).
Proof. unfold isChecked, handleItemCheck. by rewrite lookup_insert_eq. Qed.

Lemma lookup_handleItemCheck_ne (m : gmap string bool) (s : string) (i : nat)
    (key : string) :
  key ≠ item_key s i → handleItemCheck s i m !! key = m !! key.
Proof. intros Hne. unfold handleItemCheck. by rewrite lookup_insert_ne. Qed.

(** C8. Toggling the same item twice leaves every reading of the
    checked-state map as it was before, and toggling one item leaves the
    recorded entry of every other (section, index) pair untouched. *)
Theorem handleItemCheck_twice_and_apart (checkedItems : gmap string bool)
    (sectionName : string) (itemIndex : nat) :
  (∀ key,
     isChecked (handleItemCheck sectionName itemIndex
                  (handleItemCheck sectionName itemIndex checkedItems)) key
     = isChecked checkedItems key)
  ∧ (∀ otherSection otherIndex,
       (otherSection, otherIndex) ≠ (sectionName, itemIndex) →
       handleItemCheck sectionName itemIndex checkedItems
         !! item_key otherSection otherIndex
       = checkedItems !! item_key otherSection otherIndex).
Proof.
  split.
  - intros key. destruct (decide (key = item_key sectionName itemIndex)) as [-> | Hne].
    + rewrite !isChecked_handleItemCheck_same. apply negb_involutive.
    + unfold isChecked. by rewrite !lookup_handleItemCheck_ne.
  - intros s' i' Hne. apply lookup_handleItemCheck_ne.
    intros Hk. apply item_key_inj in Hk as [-> ->]. done.
Qed.

(** C8, at one input: the first item of the Notes section toggled twice on
    the initial map, and the entry of the second item after one toggle. *)
Lemma handleItemCheck_twice_and_apart_witness :
  isChecked (handleItemCheck "Notes" 0 (handleItemCheck "Notes" 0 ∅)) "Notes-0"
  = isChecked ∅ "Notes-0"
  ∧ handleItemCheck "Notes" 0 ∅ !! item_key "Notes" 1
    = (∅ : gmap string bool) !! item_key "Notes" 1.
Proof.
  destruct (handleItemCheck_twice_and_apart ∅ "Notes" 0) as [Htwice Hapart].
  split; [apply Htwice | apply Hapart; discriminate].
Defined.

(** ** Rendering a section *)

Section Rendering.
Variable checklist : ChecklistData.
Variable searchQuery : string.
Variable checkedItems : gmap string bool.


Lemma renderSection_omitted (sectionName : string) :
  truthy searchQuery = true → filtered_items checklist searchQuery sectionName = [] →
  renderSection checklist searchQuery checkedItems sectionName = None.
Proof.
  unfold filtered_items, section_items, renderSection. intros Hq Hf. cbv zeta. by rewrite Hf, Hq.
Qed.

Lemma renderSection_shown (sectionName : string) (card : SectionCard) :
  renderSection checklist searchQuery checkedItems sectionName = Some card →
  card = {| card_heading := sectionName;
            card_rows := imap (renderRow checkedItems sectionName)
                              (filtered_items checklist searchQuery sectionName);
            card_no_items :=
              (length (filtered_items checklist searchQuery sectionName) =? 0)%nat
              && negb (truthy searchQuery) |}
  ∧ ((length (filtered_items checklist searchQuery sectionName) =? 0)%nat && truthy searchQuery = false).
Proof.
  unfold filtered_items, section_items, renderSection. cbv zeta.
  destruct (_ && truthy searchQuery) eqn:Hguard; [done |].
  by intros [= <-].
Qed.


Lemma renderSection_empty_query (sectionName : string) :
  renderSection checklist EmptyString checkedItems sectionName
  = Some {| card_heading := sectionName;
            card_rows := imap (renderRow checkedItems sectionName)
                              (section_items checklist sectionName);
            card_no_items :=
              (length (section_items checklist sectionName) =? 0)%nat |}.
Proof.
  unfold renderSection, section_items, filterItems. simpl.
  by rewrite andb_false_r, andb_true_r.
Qed.

Lemma elem_of_displayedSections (card : SectionCard) :
  card ∈ displayedSections checklist searchQuery checkedItems
  ↔ ∃ sectionName, sectionName ∈ sectionOrder
      ∧ renderSection checklist searchQuery checkedItems sectionName
        = Some card.
Proof.
  unfold displayedSections, renderSections. rewrite list_elem_of_omap.
  split.
  - intros (oc & Hin & ->). apply list_elem_of_fmap in Hin as (name & -> & Hin).
    eauto.
  - intros (name & Hin & Hr). exists (Some card). split; [| done].
    rewrite <- Hr. apply list_elem_of_fmap. eauto.
Qed.
End Rendering.

Lemma lookup_renderRows (checkedItems : gmap string bool) (sectionName : string)
    (items : list string) (index : nat) :
  imap (renderRow checkedItems sectionName) items !! index
  = renderRow checkedItems sectionName index <$> items !! index.
Proof. apply list_lookup_imap. Qed.

Lemma row_texts (checkedItems : gmap string bool) (sectionName : string)
    (items : list string) :
  row_text <$> imap (renderRow checkedItems sectionName) items = items.
Proof.
  apply list_eq. intros i. rewrite list_lookup_fmap, lookup_renderRows.
  by destruct (items !! i).
Qed.

(** C4. The row shown at a position of the filtered item list carries the
    key made of the section name and that position, and its toggle writes
    the negated reading under that key.  The position is the one in the
    filtered list: the same item of the same section takes another key
    once a search string filters out an item before it. *)
Theorem row_keyed_by_filtered_position (checklist : ChecklistData)
    (searchQuery : string) (checkedItems : gmap string bool)
    (sectionName : string) (card : SectionCard) (index : nat) (item : string) :
  (renderSection checklist searchQuery checkedItems sectionName = Some card →
   filtered_items checklist searchQuery sectionName !! index = Some item →
   ∃ row, card_rows card !! index = Some row
     ∧ row_text row = item
     ∧ row_id row = item_key sectionName index
     ∧ row_checked row = isChecked checkedItems (row_id row)
     ∧ ∀ prev, row_onCheckedChange row prev
               = <[row_id row := negb (isChecked prev (row_id row))]> prev)
  ∧ (∃ c name q position card_all card_found row_all row_found,
       section_items c name !! position = Some (row_text row_all)
       ∧ renderSection c EmptyString checkedItems name = Some card_all
       ∧ renderSection c q checkedItems name = Some card_found
       ∧ card_rows card_all !! position = Some row_all
       ∧ row_found ∈ card_rows card_found
       ∧ row_text row_found = row_text row_all
       ∧ row_id row_all = item_key name position
       ∧ row_id row_found ≠ item_key name position).
Proof.
  split.
  - intros Hcard Hitem. apply renderSection_shown in Hcard as [-> _]. simpl.
    rewrite lookup_renderRows, Hitem. simpl. eexists. split; [done |].
    by repeat split.
  - exists two_notes, "Notes", "pressure", 1.
    exists {| card_heading := "Notes";
              card_rows := imap (renderRow checkedItems "Notes")
                             ["Check oil level"; "Record pressure"];
              card_no_items := false |}.
    exists {| card_heading := "Notes";
              card_rows := imap (renderRow checkedItems "Notes")
                             ["Record pressure"];
              card_no_items := false |}.
    exists (renderRow checkedItems "Notes" 1 "Record pressure").
    exists (renderRow checkedItems "Notes" 0 "Record pressure").
    repeat split; try done.
    apply list_elem_of_here.
Qed.

(** C4, at one input: the second Notes item under the search string
    "pressure" is the row at position 0 and is keyed Notes-0. *)
Lemma row_keyed_by_filtered_position_witness :
  ∃ row,
    card_rows {| card_heading := "Notes";
                 card_rows := imap (renderRow ∅ "Notes") ["Record pressure"];
                 card_no_items := false |} !! 0 = Some row
    ∧ row_text row = "Record pressure"
    ∧ row_id row = "Notes-0".
Proof.
  destruct (row_keyed_by_filtered_position two_notes "pressure" ∅ "Notes"
              {| card_heading := "Notes";
                 card_rows := imap (renderRow ∅ "Notes") ["Record pressure"];
                 card_no_items := false |} 0 "Record pressure")
    as [Hrow _].
  destruct (Hrow eq_refl eq_refl) as (row & Hl & Ht & Hid & _).
  exists row. repeat split; assumption.
Defined.

(** C9. Under a non-empty search string a section none of whose items
    match is left out of the rendered sections altogether; under the empty
    search string every section of the canonical order is rendered, with all
    its items, and carries the "no items" notice exactly when it has none. *)
Theorem section_omitted_or_noticed (checklist : ChecklistData)
    (searchQuery : string) (checkedItems : gmap string bool)
    (sectionName : string) :
  (searchQuery ≠ EmptyString →
   filtered_items checklist searchQuery sectionName = [] →
   renderSection checklist searchQuery checkedItems sectionName = None
   ∧ ∀ card, card ∈ displayedSections checklist searchQuery checkedItems →
             card_heading card ≠ sectionName)
  ∧ (searchQuery = EmptyString →
     ∃ card,
       renderSection checklist searchQuery checkedItems sectionName = Some card
       ∧ (sectionName ∈ sectionOrder →
          card ∈ displayedSections checklist searchQuery checkedItems)
       ∧ card_heading card = sectionName
       ∧ row_text <$> card_rows card = section_items checklist sectionName
       ∧ (card_no_items card = true
          ↔ section_items checklist sectionName = [])).
Proof.
  split.
  - intros Hq Hnone.
    assert (truthy searchQuery = true) as Hq'
      by (destruct searchQuery; [done | reflexivity]).
    assert (renderSection checklist searchQuery checkedItems sectionName = None)
      as Hr by (by apply renderSection_omitted).
    split; [done |]. intros card Hin Hhead.
    apply elem_of_displayedSections in Hin as (name & _ & Hcard).
    destruct (renderSection_shown _ _ _ _ _ Hcard) as [Hc _].
    rewrite Hc in Hhead. simpl in Hhead. subst name. congruence.
  - intros ->. eexists. split; [apply renderSection_empty_query |].
    split; [| split; [done | split]].
    + intros Hin. apply elem_of_displayedSections.
      eauto using renderSection_empty_query.
    + simpl. apply row_texts.
    + simpl. destruct (section_items checklist sectionName);
        simpl; split; congruence.
Qed.

(** C9, at one input: the Notes section under a search string that matches
    none of its items, and the Calibration section, which the example
    checklist lacks, under the empty search string. *)
Lemma section_omitted_or_noticed_witness :
  renderSection two_notes "valve" ∅ "Notes" = None
  ∧ ∃ card, renderSection two_notes EmptyString ∅ "Calibration" = Some card
            ∧ card_no_items card = true.
Proof.
  split.
  - destruct (section_omitted_or_noticed two_notes "valve" ∅ "Notes")
      as [Homit _].
    apply Homit; [discriminate | reflexivity].
  - destruct (section_omitted_or_noticed two_notes EmptyString ∅ "Calibration")
      as [_ Hshown].
    destruct (Hshown eq_refl) as (card & Hcard & _ & _ & _ & Hnotice).
    exists card. split; [exact Hcard | apply Hnotice; reflexivity].
Defined.

(** What the page shows of the sections: each heading with the texts of its
    rows, in order. *)
Lemma displayed_texts_unfold (checklist : ChecklistData) (searchQuery : string)
    (checkedItems : gmap string bool) (names : list string) :
  (fun card => (card_heading card, row_text <$> card_rows card))
    <$> omap (fun card => card)
          (renderSection checklist searchQuery checkedItems <$> names)
  = omap (fun name =>
            if (length (filtered_items checklist searchQuery name) =? 0)%nat
               && truthy searchQuery
            then None
            else Some (name, filtered_items checklist searchQuery name))
         names.
Proof.
  induction names as [|name names IH]; [done |]. simpl.
  unfold renderSection at 1. cbv zeta.
  fold (section_items checklist name).
  fold (filtered_items checklist searchQuery name).
  destruct (_ && truthy searchQuery); simpl; [apply IH |].
  rewrite row_texts. f_equal. apply IH.
Qed.

(** C10. The headings and item texts displayed, section by section and in
    order, are the same under any two checked-state maps. *)
Theorem displayed_items_ignore_checked (checklist : ChecklistData)
    (searchQuery : string) (checkedItems1 checkedItems2 : gmap string bool) :
  (fun card => (card_heading card, row_text <$> card_rows card))
    <$> displayedSections checklist searchQuery checkedItems1
  = (fun card => (card_heading card, row_text <$> card_rows card))
    <$> displayedSections checklist searchQuery checkedItems2.
Proof.
  unfold displayedSections, renderSections.
  by rewrite !displayed_texts_unfold.
Qed.

(** ** Section order *)

Lemma get_prop_None {V} (o : list (string * V)) (name : string) :
  get_prop o name = None ↔ name ∉ o.*1.
Proof.
  induction o as [|[k v] o IH]; simpl.
  - split; [intros _; apply not_elem_of_nil | done].
  - rewrite not_elem_of_cons. destruct (String.eqb_spec k name) as [-> | Hne].
    + split; [done | intros [? _]; done].
    + rewrite IH. split; [intros ?; split; [congruence | done] | by intros [_ ?]].
Qed.

Lemma get_prop_Some {V} (o : list (string * V)) (name : string) (v : V) :
  distinct_keys o → get_prop o name = Some v ↔ (name, v) ∈ o.
Proof.
  unfold distinct_keys. induction o as [|[k w] o IH]; simpl; intros Hnd.
  - split; [done | intros H; by apply elem_of_nil in H].
  - apply NoDup_cons in Hnd as [Hk Hnd]. rewrite elem_of_cons.
    destruct (String.eqb_spec k name) as [-> | Hne].
    + split; [intros [= ->]; by left |].
      intros [[= ->] | Hin]; [done |]. exfalso. apply Hk.
      by apply (list_elem_of_fmap_2 fst) in Hin.
    + rewrite IH by done. split; [by right |].
      intros [[= ? ?] | ?]; [congruence | done].
Qed.

Lemma get_prop_Permutation {V} (o o' : list (string * V)) (name : string) :
  distinct_keys o → o ≡ₚ o' → get_prop o name = get_prop o' name.
Proof.
  intros Hnd Hperm.
  assert (distinct_keys o') as Hnd'.
  { unfold distinct_keys in *. by rewrite <- Hperm. }
  destruct (get_prop o name) as [v|] eqn:Ho.
  - symmetry. apply get_prop_Some; [done |]. rewrite <- Hperm.
    by apply get_prop_Some.
  - symmetry. apply get_prop_None. apply get_prop_None in Ho.
    intros Hin. apply Ho. by rewrite Hperm.
Qed.

Lemma headings_sublist (checklist : ChecklistData) (searchQuery : string)
    (checkedItems : gmap string bool) (names : list string) :
  card_heading
    <$> omap (fun card => card)
          (renderSection checklist searchQuery checkedItems <$> names)
  `sublist_of` names.
Proof.
  induction names as [|name names IH]; [constructor |]. simpl.
  destruct (renderSection _ _ _ name) as [card|] eqn:Hcard; simpl.
  - apply renderSection_shown in Hcard as [-> _]. simpl. by apply sublist_skip.
  - by apply sublist_cons.
Qed.

Lemma headings_empty_query (checklist : ChecklistData)
    (checkedItems : gmap string bool) (names : list string) :
  card_heading
    <$> omap (fun card => card)
          (renderSection checklist EmptyString checkedItems <$> names)
  = names.
Proof.
  induction names as [|name names IH]; [done |]. simpl.
  rewrite renderSection_empty_query. simpl. f_equal. apply IH.
Qed.

(** C7. The viewer goes through the sections in the canonical order: the
    callback is run on the names of [sectionOrder] one after the other and
    yields either nothing or the card of that name; so the headings shown
    are a sublist of [sectionOrder], and all of it when nothing is searched.
    Two section maps with the same entries in a different key order render
    the same, and a name missing from the map renders as the empty item
    sequence does. *)
Theorem sections_follow_sectionOrder (checklist : ChecklistData)
    (searchQuery : string) (checkedItems : gmap string bool) :
  Forall2 (fun name rendered =>
             rendered = renderSection checklist searchQuery checkedItems name
             ∧ ∀ card, rendered = Some card → card_heading card = name)
          sectionOrder (renderSections checklist searchQuery checkedItems)
  ∧ card_heading <$> displayedSections checklist searchQuery checkedItems
    `sublist_of` sectionOrder
  ∧ card_heading <$> displayedSections checklist EmptyString checkedItems
    = sectionOrder
  ∧ (∀ reordered,
       distinct_keys (sections checklist) →
       sections checklist ≡ₚ sections reordered →
       renderSections reordered searchQuery checkedItems
       = renderSections checklist searchQuery checkedItems)
  ∧ (∀ sectionName,
       get_prop (sections checklist) sectionName = None →
       section_items checklist sectionName = []
       ∧ renderSection checklist searchQuery checkedItems sectionName
         = if truthy searchQuery then None
           else Some {| card_heading := sectionName;
                        card_rows := [];
                        card_no_items := true |}).
Proof.
  split; [| split; [| split; [| split]]].
  - unfold renderSections. apply Forall2_fmap_r, Forall_Forall2_diag.
    apply Forall_forall. intros name _. split; [done |].
    intros card Hcard. by apply renderSection_shown in Hcard as [-> _].
  - apply headings_sublist.
  - apply headings_empty_query.
  - intros reordered Hnd Hperm. unfold renderSections.
    apply list_fmap_ext. intros _ name _. unfold renderSection.
    by rewrite (get_prop_Permutation _ _ name Hnd Hperm).
  - intros name Hnone. unfold section_items, renderSection. rewrite Hnone.
    split; [done |]. simpl. unfold filterItems.
    by destruct (truthy searchQuery).
Qed.

(** C7, at one input: a checklist and the same checklist with its two
    section keys swapped, and a section name the checklist lacks. *)
Lemma sections_follow_sectionOrder_witness :
  renderSections two_sections_reordered "gauge" ∅
  = renderSections two_sections "gauge" ∅
  ∧ section_items two_sections "Lubrication" = [].
Proof.
  destruct (sections_follow_sectionOrder two_sections "gauge" ∅)
    as (_ & _ & _ & Hreorder & Habsent).
  split.
  - apply Hreorder.
    + apply (bool_decide_unpack _). vm_compute. exact I.
    + apply perm_swap.
  - apply (Habsent "Lubrication"). reflexivity.
Defined.

(** ** The generate handler *)

Lemma apply_effects_no_setters (st : IndexState) (effects : list Effect) :
  state_setters_of effects = [] → apply_effects st effects = st.
Proof.
  unfold apply_effects. revert st.
  induction effects as [|e effects IH]; intros st H; [done |].
  destruct e; simpl in *; try done; by apply IH.
Qed.

Lemma selectedChecklistId_apply_effects (st : IndexState)
    (effects : list Effect) :
  selectedChecklistId (apply_effects st effects) = selectedChecklistId st.
Proof.
  unfold apply_effects. revert st.
  induction effects as [|e effects IH]; intros st; [done |].
  simpl. rewrite IH. by destruct e.
Qed.

Lemma truthy_true (s : string) : truthy s = true ↔ s ≠ EmptyString.
Proof. destruct s; simpl; split; congruence. Qed.

(** While no identifier is selected nothing is shown: the show flag is set
    only by a generation with an identifier, and the dropdown, whose items
    carry the identifiers of the dataset, never hands back the empty one. *)
Lemma step_hidden_without_selection
    (checklistData : list (string * ChecklistData)) (app : App) (ev : Event) :
  ev ≠ OnValueChange EmptyString →
  (selectedChecklistId (page app) = EmptyString →
   showChecklist (page app) = false) →
  selectedChecklistId (page (step checklistData app ev)) = EmptyString →
  showChecklist (page (step checklistData app ev)) = false.
Proof.
  intros Hev Hinv. destruct ev as [value | | value | sectionName index |];
    simpl.
  - intros ->. done.
  - destruct (truthy (selectedChecklistId (page app))) eqn:Hid; simpl.
    + rewrite selectedChecklistId_apply_effects. intros Hempty.
      rewrite Hempty in Hid. done.
    + done.
  - done.
  - by destruct (rendered_row app sectionName index), (viewer app).
  - unfold handleCopyJSON. by destruct (selectedChecklist (page app)).
Qed.

Lemma run_hidden_without_selection
    (checklistData : list (string * ChecklistData)) (events : list Event)
    (app : App) :
  Forall (fun ev => ev ≠ OnValueChange EmptyString) events →
  (selectedChecklistId (page app) = EmptyString →
   showChecklist (page app) = false) →
  selectedChecklistId (page (run checklistData app events)) = EmptyString →
  showChecklist (page (run checklistData app events)) = false.
Proof.
  intros Hevents. revert app.
  induction Hevents as [|ev events Hev Hevents IH]; intros app Hinv; [done |].
  apply IH. by apply step_hidden_without_selection.
Qed.

(** C5. Run with no identifier selected, the generate handler raises the
    warning notification and nothing else, calls no state setter and leaves
    the page state as it was; a show flag that was false stays false, and
    false it is in every state the page reaches with no identifier
    selected. *)
Theorem generate_without_selection
    (checklistData : list (string * ChecklistData)) (st : IndexState) :
  selectedChecklistId st = EmptyString →
  fst (handleGenerateChecklist checklistData st) = [ShowToast select_warning]
  ∧ snd (handleGenerateChecklist checklistData st) = Returned
  ∧ state_setters_of (fst (handleGenerateChecklist checklistData st)) = []
  ∧ apply_effects st (fst (handleGenerateChecklist checklistData st)) = st
  ∧ (showChecklist st = false →
     showChecklist
       (apply_effects st (fst (handleGenerateChecklist checklistData st)))
     = false)
  ∧ (∀ events,
       Forall (fun ev => ev ≠ OnValueChange EmptyString) events →
       page (run checklistData initialApp events) = st →
       showChecklist
         (apply_effects st (fst (handleGenerateChecklist checklistData st)))
       = false).
Proof.
  intros Hid. unfold handleGenerateChecklist. rewrite Hid. simpl.
  repeat split; try done.
  intros events Hevents <-.
  by apply (run_hidden_without_selection checklistData events initialApp).
Qed.

(** C5, at one input: the generate handler in the initial state of the
    page. *)
Lemma generate_without_selection_witness :
  fst (handleGenerateChecklist example_data initialIndexState)
  = [ShowToast select_warning]
  ∧ showChecklist
      (apply_effects initialIndexState
         (fst (handleGenerateChecklist example_data initialIndexState)))
    = false.
Proof.
  destruct (generate_without_selection example_data initialIndexState eq_refl)
    as (Htoast & _ & _ & _ & Hshow & Hreached).
  split; [exact Htoast |].
  apply (Hreached []); [apply Forall_nil_2 | reflexivity].
Defined.

Lemma handleGenerateChecklist_absent
    (checklistData : list (string * ChecklistData)) (st : IndexState) :
  selectedChecklistId st ≠ EmptyString →
  get_prop checklistData (selectedChecklistId st) = None →
  handleGenerateChecklist checklistData st
  = ([SetSelectedChecklist None; SetShowChecklist true], ThrewTypeError).
Proof.
  intros Hid Habsent. unfold handleGenerateChecklist.
  apply truthy_true in Hid. by rewrite Hid, Habsent.
Qed.

Lemma handleGenerateChecklist_present
    (checklistData : list (string * ChecklistData)) (st : IndexState)
    (c : ChecklistData) :
  selectedChecklistId st ≠ EmptyString →
  get_prop checklistData (selectedChecklistId st) = Some c →
  handleGenerateChecklist checklistData st
  = ([SetSelectedChecklist (Some c); SetShowChecklist true;
      ShowToast (generated_toast c)], Returned).
Proof.
  intros Hid Hc. unfold handleGenerateChecklist.
  apply truthy_true in Hid. by rewrite Hid, Hc.
Qed.

(** C3 as stated fails.  With the pump record stored under the key
    "pump-1" the dropdown offers the value "pump"; once it is picked the
    selected identifier is non-empty and no key of the dataset, and the
    generate handler raises no warning, calls both setters, so that the show
    flag goes from false to true, and is left by the [TypeError]. *)
Lemma generate_absent_identifier_counterexample :
  forallb (from_widgets miskeyed_data) [OnValueChange "pump"] = true
  ∧ selectedChecklistId
      (page (run miskeyed_data initialApp [OnValueChange "pump"])) = "pump"
  ∧ get_prop miskeyed_data "pump" = None
  ∧ handleGenerateChecklist miskeyed_data
      (page (run miskeyed_data initialApp [OnValueChange "pump"]))
    = ([SetSelectedChecklist None; SetShowChecklist true], ThrewTypeError)
  ∧ showChecklist
      (page (run miskeyed_data initialApp [OnValueChange "pump"])) = false
  ∧ showChecklist
      (apply_effects
         (page (run miskeyed_data initialApp [OnValueChange "pump"]))
         (fst (handleGenerateChecklist miskeyed_data
                 (page (run miskeyed_data initialApp [OnValueChange "pump"])))))
    = true
  ∧ ¬ (select_warning
         ∈ toasts_of
             (fst (handleGenerateChecklist miskeyed_data
                     (page (run miskeyed_data initialApp
                              [OnValueChange "pump"]))))
       ∧ apply_effects
           (page (run miskeyed_data initialApp [OnValueChange "pump"]))
           (fst (handleGenerateChecklist miskeyed_data
                   (page (run miskeyed_data initialApp
                            [OnValueChange "pump"]))))
         = page (run miskeyed_data initialApp [OnValueChange "pump"])).
Proof.
  repeat split; try done.
  intros [_ Hsame]. apply (f_equal showChecklist) in Hsame. done.
Qed.

(** C3, amended. The warning belongs to the request with no identifier
    selected and to no other: with a non-empty identifier that the dataset
    lacks the generate handler does not raise it, no presence check being
    made; in any state the warning is raised exactly when no identifier is
    selected, and then the page state is left as it was. *)
Theorem generate_absent_identifier
    (checklistData : list (string * ChecklistData)) (st : IndexState) :
  selectedChecklistId st ≠ EmptyString →
  get_prop checklistData (selectedChecklistId st) = None →
  (select_warning
     ∉ toasts_of (fst (handleGenerateChecklist checklistData st)))
  ∧ (∀ st',
       select_warning
         ∈ toasts_of (fst (handleGenerateChecklist checklistData st'))
       ↔ selectedChecklistId st' = EmptyString)
  ∧ (∀ st',
       selectedChecklistId st' = EmptyString →
       apply_effects st' (fst (handleGenerateChecklist checklistData st'))
       = st').
Proof.
  intros Hid Habsent. split; [| split].
  - rewrite (handleGenerateChecklist_absent _ _ Hid Habsent). simpl.
    apply not_elem_of_nil.
  - intros st'. unfold handleGenerateChecklist.
    destruct (truthy (selectedChecklistId st')) eqn:Hq; simpl.
    + apply truthy_true in Hq. split; [| done]. intros Hin. exfalso.
      destruct (get_prop checklistData (selectedChecklistId st')); simpl in Hin.
      * apply list_elem_of_singleton in Hin. discriminate Hin.
      * by apply elem_of_nil in Hin.
    + apply truthy_false in Hq. split; [done |]. intros _.
      apply list_elem_of_here.
  - intros st' Hempty. unfold handleGenerateChecklist. by rewrite Hempty.
Qed.

(** C3 amended, at one input: the value "pump" picked from the dropdown of
    the dataset that stores the pump record under the key "pump-1". *)
Lemma generate_absent_identifier_witness :
  get_prop miskeyed_data "pump" = None
  ∧ select_warning
      ∉ toasts_of
          (fst (handleGenerateChecklist miskeyed_data
                  (page (run miskeyed_data initialApp [OnValueChange "pump"])))).
Proof.
  destruct (generate_absent_identifier miskeyed_data
              (page (run miskeyed_data initialApp [OnValueChange "pump"])))
    as [Hwarn _]; [discriminate | reflexivity |].
  split; [reflexivity | exact Hwarn].
Defined.

(** ** The viewer instance across generations *)

(** C2 as stated fails: after the pump checklist is generated and its first
    Notes item ticked, generating the press checklist shows the press
    checklist with the checked-state map still holding the tick, so that
    the first Notes item of the press checklist is displayed checked. *)
Lemma second_checklist_keeps_ticks_counterexample :
  selectedChecklist (page (run example_data initialApp two_checklists_session))
  = Some two_sections
  ∧ viewer (run example_data initialApp two_checklists_session)
    = Some {[ "Notes-0" := true ]}
  ∧ viewer (run example_data initialApp two_checklists_session) ≠ Some ∅
  ∧ ∃ row,
      rendered_row (run example_data initialApp two_checklists_session)
                   "Notes" 0 = Some row
      ∧ row_text row = "Log the run"
      ∧ row_checked row = true.
Proof.
  assert (viewer (run example_data initialApp two_checklists_session)
          = Some {[ "Notes-0" := true ]}) as Hviewer by (by vm_compute).
  split; [by vm_compute |]. split; [exact Hviewer |]. split.
  - rewrite Hviewer. intros H.
    assert (({[ "Notes-0" := true ]} : gmap string bool) !! "Notes-0"
            = (∅ : gmap string bool) !! "Notes-0") as Hlookup
      by congruence.
    by rewrite lookup_singleton_eq, lookup_empty in Hlookup.
  - eexists. split; [by vm_compute |]. by split.
Qed.

(** C2, amended. Generating a checklist that the dataset holds stores it and
    sets the show flag; a viewer that is mounted stays mounted and keeps its
    checked-state map as it is, and only a viewer mounted by this generation
    starts from the empty map. *)
Theorem generate_keeps_checked_state
    (checklistData : list (string * ChecklistData)) (app : App)
    (c : ChecklistData) :
  selectedChecklistId (page app) ≠ EmptyString →
  get_prop checklistData (selectedChecklistId (page app)) = Some c →
  selectedChecklist (page (step checklistData app ClickGenerate)) = Some c
  ∧ showChecklist (page (step checklistData app ClickGenerate)) = true
  ∧ viewer (step checklistData app ClickGenerate)
    = Some (default ∅ (viewer app)).
Proof.
  intros Hid Hc. unfold step.
  rewrite (handleGenerateChecklist_present _ _ _ Hid Hc).
  apply truthy_true in Hid. rewrite Hid. simpl.
  repeat split. by destruct (viewer app).
Qed.

(** C2 amended, at one input: the press checklist generated while the viewer
    of the pump checklist holds one tick. *)
Lemma generate_keeps_checked_state_witness :
  viewer (step example_data
            {| page := {| selectedChecklistId := "press";
                          selectedChecklist := Some two_notes;
                          searchQuery := EmptyString;
                          showChecklist := true |};
               viewer := Some {[ "Notes-0" := true ]} |}
            ClickGenerate)
  = Some {[ "Notes-0" := true ]}.
Proof.
  destruct (generate_keeps_checked_state example_data
              {| page := {| selectedChecklistId := "press";
                            selectedChecklist := Some two_notes;
                            searchQuery := EmptyString;
                            showChecklist := true |};
                 viewer := Some {[ "Notes-0" := true ]} |}
              two_sections)
    as (_ & _ & Hviewer); [discriminate | reflexivity |].
  exact Hviewer.
Defined.

(** ** JSON text *)

(** Induction on JSON values, with the hypothesis available for every
    element of an array and every member of an object. *)
Lemma json_nested_ind (P : json → Prop) :
  (∀ s, P (JString s)) →
  (∀ elements, Forall P elements → P (JArray elements)) →
  (∀ members, Forall (fun m => P (snd m)) members → P (JObject members)) →
  ∀ v, P v.
Proof.
  intros Hs Ha Ho. fix IH 1. intros [s | elements | members].
  - apply Hs.
  - apply Ha. induction elements as [|e elements IHl]; constructor;
      [apply IH | apply IHl].
  - apply Ho. induction members as [|[k v] members IHl]; constructor;
      [apply IH | apply IHl].
Qed.

Lemma parse_chars_quote_unit (c : ascii) (tail : string) :
  parse_chars (quote_unit c +:+ tail) = cons_unit c (parse_chars tail).
Proof.
  destruct c as [[] [] [] [] [] [] [] []]; reflexivity.
Qed.

Lemma parse_chars_quote_units (s rest : string) :
  parse_chars (quote_units s +:+ String dquote rest) = Some (s, rest).
Proof.
  induction s as [|c s IH]; [done |]. simpl quote_units.
  by rewrite append_assoc, parse_chars_quote_unit, IH.
Qed.

Lemma skip_ws_blank (indent t : string) :
  blank indent = true → skip_ws (indent +:+ t) = skip_ws t.
Proof.
  induction indent as [|c indent IH]; simpl; [done |].
  intros [Hc Hi]%andb_true_iff. rewrite Hc. by apply IH.
Qed.

Lemma blank_gap (indent : string) :
  blank indent = true → blank (indent +:+ gap) = true.
Proof.
  induction indent as [|c indent IH]; simpl; [done |].
  intros [Hc Hi]%andb_true_iff. by rewrite Hc, IH.
Qed.

Lemma serialize_starts (indent : string) (v : json) (rest : string) :
  starts_value (SerializeJSONProperty indent v +:+ rest).
Proof.
  unfold starts_value. destruct v as [s | [|e l] | [|m l]]; simpl; eauto 8.
Qed.

Lemma skip_ws_starts (t : string) : starts_value t → skip_ws t = t.
Proof. by intros (c & r & -> & [-> | [-> | ->]]). Qed.

Lemma skip_ws_indent_starts (indent t : string) :
  blank indent = true → starts_value t →
  skip_ws (newline +:+ indent +:+ t) = t.
Proof.
  intros Hb Ht. simpl. rewrite skip_ws_blank by done. by apply skip_ws_starts.
Qed.

Lemma skip_ws_indent_close (indent : string) (c : ascii) (t : string) :
  blank indent = true → is_ws c = false →
  skip_ws (newline +:+ indent +:+ String c t) = String c t.
Proof.
  intros Hb Hc. simpl. rewrite skip_ws_blank by done. simpl. by rewrite Hc.
Qed.

Lemma parse_value_unfold (fuel : nat) (c : ascii) (r : string) :
  parse_value (S fuel) (String c r) =
          if Ascii.eqb c dquote then
            match parse_chars r with
            | Some (str, r') => Some (JString str, r')
            | None => None
            end
          else if Ascii.eqb c "[" then
            match skip_ws r with
            | String "]" r' => Some (JArray [], r')
            | r1 =>
                match parse_elements fuel r1 with
                | Some (l, r') => Some (JArray l, r')
                | None => None
                end
            end
          else if Ascii.eqb c "{" then
            match skip_ws r with
            | String "}" r' => Some (JObject [], r')
            | r1 =>
                match parse_members fuel r1 with
                | Some (l, r') => Some (JObject (object_of l), r')
                | None => None
                end
            end
          else None.
Proof. reflexivity. Qed.

Lemma parse_value_array  (fuel : nat) (indent t : string) :
  blank indent = true → starts_value t →
  parse_value (S fuel) ("[" +:+ newline +:+ indent +:+ t)
  = match parse_elements fuel t with
    | Some (l, r') => Some (JArray l, r')
    | None => None
    end.
Proof.
  intros Hb Ht. change ("[" +:+ ?x) with (String "[" x).
  rewrite parse_value_unfold. simpl Ascii.eqb. cbv iota.
  rewrite skip_ws_indent_starts by done.
  by destruct Ht as (c & r & -> & [-> | [-> | ->]]).
Qed.

Lemma parse_value_object (fuel : nat) (indent t : string) :
  blank indent = true → starts_value t →
  parse_value (S fuel) ("{" +:+ newline +:+ indent +:+ t)
  = match parse_members fuel t with
    | Some (l, r') => Some (JObject (object_of l), r')
    | None => None
    end.
Proof.
  intros Hb Ht. change ("{" +:+ ?x) with (String "{" x).
  rewrite parse_value_unfold. simpl Ascii.eqb. cbv iota.
  rewrite skip_ws_indent_starts by done.
  by destruct Ht as (c & r & -> & [-> | [-> | ->]]).
Qed.

Lemma parse_value_string (fuel : nat) (s rest : string) :
  parse_value (S fuel) (QuoteJSONString s +:+ rest) = Some (JString s, rest).
Proof.
  unfold QuoteJSONString. simpl. rewrite append_assoc. simpl.
  by rewrite parse_chars_quote_units.
Qed.

Lemma parse_elements_unfold (fuel : nat) (s : string) :
  parse_elements (S fuel) s =
      match parse_value fuel s with
      | Some (v, r) =>
          match skip_ws r with
          | String "," r' =>
              match parse_elements fuel (skip_ws r') with
              | Some (l, r'') => Some (v :: l, r'')
              | None => None
              end
          | String "]" r' => Some ([v], r')
          | _ => None
          end
      | None => None
      end%char.
Proof. reflexivity. Qed.

(** The last element of an array, followed by the closing line. *)
Lemma parse_elements_last (fuel : nat) (s stepback rest : string) (v : json) :
  blank stepback = true →
  parse_value fuel (s +:+ newline +:+ stepback +:+ "]" +:+ rest)
  = Some (v, newline +:+ stepback +:+ "]" +:+ rest) →
  parse_elements (S fuel) (s +:+ newline +:+ stepback +:+ "]" +:+ rest)
  = Some ([v], rest).
Proof.
  intros Hb Hv. rewrite parse_elements_unfold, Hv.
  change ("]" +:+ rest) with (String "]" rest).
  by rewrite skip_ws_indent_close.
Qed.

(** An element followed by the separator and the text of further ones. *)
Lemma parse_elements_more (fuel : nat) (s indent t : string) (v : json)
    (l : list json) (rest : string) :
  blank indent = true → starts_value t →
  parse_value fuel (s +:+ "," +:+ newline +:+ indent +:+ t)
  = Some (v, "," +:+ newline +:+ indent +:+ t) →
  parse_elements fuel t = Some (l, rest) →
  parse_elements (S fuel) (s +:+ "," +:+ newline +:+ indent +:+ t)
  = Some (v :: l, rest).
Proof.
  intros Hb Ht Hv Hl. rewrite parse_elements_unfold, Hv.
  change (skip_ws ("," +:+ ?x)) with (String "," x). cbv beta iota.
  rewrite skip_ws_indent_starts by done. by rewrite Hl.
Qed.

Lemma parse_members_unfold (fuel : nat) (c : ascii) (r : string) :
  parse_members (S fuel) (String c r) =
          if Ascii.eqb c dquote then
            match parse_chars r with
            | Some (k, r1) =>
                match skip_ws r1 with
                | String ":" r2 =>
                    match parse_value fuel (skip_ws r2) with
                    | Some (v, r3) =>
                        match skip_ws r3 with
                        | String "," r4 =>
                            match parse_members fuel (skip_ws r4) with
                            | Some (l, r5) => Some ((k, v) :: l, r5)
                            | None => None
                            end
                        | String "}" r4 => Some ([(k, v)], r4)
                        | _ => None
                        end
                    | None => None
                    end
                | _ => None
                end
            | None => None
            end
          else None.
Proof. reflexivity. Qed.

(** The key of a member and the colon after it. *)
Lemma parse_members_key (fuel : nat) (k t : string) :
  starts_value t →
  parse_members (S fuel) (QuoteJSONString k +:+ ": " +:+ t)
  = match parse_value fuel t with
    | Some (v, r3) =>
        match skip_ws r3 with
        | String "," r4 =>
            match parse_members fuel (skip_ws r4) with
            | Some (l, r5) => Some ((k, v) :: l, r5)
            | None => None
            end
        | String "}" r4 => Some ([(k, v)], r4)
        | _ => None
        end
    | None => None
    end%char.
Proof.
  intros Ht. unfold QuoteJSONString.
  change (String dquote ?x +:+ ?y) with (String dquote (x +:+ y)).
  rewrite parse_members_unfold. change (Ascii.eqb dquote dquote) with true.
  cbv iota. rewrite append_assoc.
  change (String dquote EmptyString +:+ ?x) with (String dquote x).
  rewrite parse_chars_quote_units.
  change (skip_ws (": " +:+ t)) with (String ":" (String " " t)).
  cbv beta iota. change (skip_ws (String " " t)) with (skip_ws t).
  by rewrite skip_ws_starts.
Qed.

Lemma parse_members_last (fuel : nat) (k s stepback rest : string) (v : json) :
  blank stepback = true →
  starts_value (s +:+ newline +:+ stepback +:+ "}" +:+ rest) →
  parse_value fuel (s +:+ newline +:+ stepback +:+ "}" +:+ rest)
  = Some (v, newline +:+ stepback +:+ "}" +:+ rest) →
  parse_members (S fuel)
    (QuoteJSONString k +:+ ": " +:+ s +:+ newline +:+ stepback +:+ "}" +:+ rest)
  = Some ([(k, v)], rest).
Proof.
  intros Hb Hs Hv. rewrite parse_members_key, Hv by done.
  change ("}" +:+ rest) with (String "}" rest).
  by rewrite skip_ws_indent_close.
Qed.

Lemma parse_members_more (fuel : nat) (k s indent t : string) (v : json)
    (l : list (string * json)) (rest : string) :
  blank indent = true → starts_value t →
  starts_value (s +:+ "," +:+ newline +:+ indent +:+ t) →
  parse_value fuel (s +:+ "," +:+ newline +:+ indent +:+ t)
  = Some (v, "," +:+ newline +:+ indent +:+ t) →
  parse_members fuel t = Some (l, rest) →
  parse_members (S fuel)
    (QuoteJSONString k +:+ ": " +:+ s +:+ "," +:+ newline +:+ indent +:+ t)
  = Some ((k, v) :: l, rest).
Proof.
  intros Hb Ht Hs Hv Hl. rewrite parse_members_key, Hv by done.
  change (skip_ws ("," +:+ ?x)) with (String "," x). cbv beta iota.
  rewrite skip_ws_indent_starts by done. by rewrite Hl.
Qed.

Lemma concat_one (sep x tail : string) :
  String.concat sep [x] +:+ tail = x +:+ tail.
Proof. done. Qed.

Lemma concat_more (sep x : string) (l : list string) (tail : string) :
  l ≠ [] →
  String.concat sep (x :: l) +:+ tail
  = x +:+ sep +:+ String.concat sep l +:+ tail.
Proof.
  destruct l as [|y l]; [done |]. intros _.
  change (String.concat sep (x :: y :: l))
    with (x +:+ sep +:+ String.concat sep (y :: l)).
  by rewrite !append_assoc.
Qed.

Lemma elements_start (indent sep : string) (e : json) (l : list json)
    (tail : string) :
  starts_value
    (String.concat sep (map (SerializeJSONProperty indent) (e :: l)) +:+ tail).
Proof.
  destruct l as [|e' l]; simpl map.
  - rewrite concat_one. apply serialize_starts.
  - rewrite concat_more by done. apply serialize_starts.
Qed.

Lemma members_start (indent sep : string) (m : string * json)
    (l : list (string * json)) (tail : string) :
  starts_value
    (String.concat sep
       (map (fun m : string * json =>
               QuoteJSONString (fst m) +:+ ": "
               +:+ SerializeJSONProperty indent (snd m)) (m :: l)) +:+ tail).
Proof.
  unfold starts_value. destruct l as [|m' l]; simpl; eauto 6.
Qed.

Lemma parse_elements_serialized (indent stepback : string) (l : list json) :
  blank indent = true → blank stepback = true → l ≠ [] →
  Forall reads_back l →
  ∀ fuel rest,
    (fold_right (fun e acc => S (json_size e) + acc) 0 l ≤ fuel)%nat →
    fold_right (fun e acc => wf_json e ∧ acc) True l →
    parse_elements fuel
      (String.concat ("," +:+ newline +:+ indent)
         (map (SerializeJSONProperty indent) l)
       +:+ newline +:+ stepback +:+ "]" +:+ rest)
    = Some (l, rest).
Proof.
  intros Hi Hs Hne Hall. induction Hall as [|e l He Hall IH]; [done |].
  intros fuel rest Hfuel [Hwe Hwl]. simpl in Hfuel.
  destruct fuel as [|fuel]; [lia |].
  destruct l as [|e' l].
  - simpl map. rewrite concat_one. apply parse_elements_last; [done |].
    apply He; [done | lia | done].
  - change (map ?f (e :: e' :: l)) with (f e :: map f (e' :: l)).
    rewrite concat_more, !append_assoc by done.
    apply parse_elements_more.
    + done.
    + apply (elements_start indent _ e' l).
    + apply He; [done | simpl in *; lia | done].
    + apply IH; [done | simpl in *; lia | done].
Qed.

Lemma parse_members_serialized (indent stepback : string)
    (l : list (string * json)) :
  blank indent = true → blank stepback = true → l ≠ [] →
  Forall (fun m => reads_back (snd m)) l →
  ∀ fuel rest,
    (fold_right (fun m acc => S (json_size (snd m)) + acc) 0 l ≤ fuel)%nat →
    fold_right (fun m acc => wf_json (snd m) ∧ acc) True l →
    parse_members fuel
      (String.concat ("," +:+ newline +:+ indent)
         (map (fun m : string * json =>
                 QuoteJSONString (fst m) +:+ ": "
                 +:+ SerializeJSONProperty indent (snd m)) l)
       +:+ newline +:+ stepback +:+ "}" +:+ rest)
    = Some (l, rest).
Proof.
  intros Hi Hs Hne Hall. induction Hall as [|[k v] l Hv Hall IH]; [done |].
  intros fuel rest Hfuel [Hwv Hwl]. simpl in Hfuel, Hv, Hwv.
  destruct fuel as [|fuel]; [lia |].
  destruct l as [|m' l].
  - change (map _ [(k, v)])
      with [QuoteJSONString k +:+ ": " +:+ SerializeJSONProperty indent v].
    rewrite concat_one, !append_assoc.
    apply parse_members_last; [done | apply serialize_starts |].
    apply Hv; [done | lia | done].
  - change (map ?f ((k, v) :: m' :: l))
      with ((QuoteJSONString k +:+ ": " +:+ SerializeJSONProperty indent v)
            :: map f (m' :: l)).
    rewrite concat_more, !append_assoc by done.
    apply parse_members_more.
    + done.
    + apply (members_start indent _ m' l).
    + apply serialize_starts.
    + apply Hv; [done | simpl in *; lia | done].
    + apply IH; [done | simpl in *; lia | done].
Qed.

Lemma set_prop_fresh {V} (o : list (string * V)) (k : string) (v : V) :
  k ∉ o.*1 → set_prop o k v = (o ++ [(k, v)])%list.
Proof.
  induction o as [|[k' v'] o IH]; simpl; [done |].
  intros [Hne Hk]%not_elem_of_cons.
  destruct (String.eqb_spec k' k) as [-> | _]; [done |]. by rewrite IH.
Qed.

Lemma object_of_distinct_from {V} (members acc : list (string * V)) :
  distinct_keys (acc ++ members)%list →
  fold_left (fun o m => set_prop o (fst m) (snd m)) members acc
  = (acc ++ members)%list.
Proof.
  unfold distinct_keys. revert acc.
  induction members as [|[k v] members IH]; intros acc Hnd; simpl.
  - by rewrite app_nil_r.
  - rewrite set_prop_fresh.
    + rewrite IH; rewrite <- app_assoc; done.
    + rewrite fmap_app in Hnd. apply NoDup_app in Hnd as (_ & Hdisj & _).
      intros Hk. apply (Hdisj k Hk). simpl. apply list_elem_of_here.
Qed.

Lemma object_of_distinct {V} (members : list (string * V)) :
  distinct_keys members → object_of members = members.
Proof. intros Hnd. by apply (object_of_distinct_from members []). Qed.

Lemma serialized_reads_back (v : json) : reads_back v.
Proof.
  induction v as [s | elements IH | members IH] using json_nested_ind;
    intros indent fuel rest Hi Hfuel Hwf;
    (destruct fuel as [|fuel]; [simpl in Hfuel; lia |]);
    pose proof (blank_gap _ Hi) as Hinner.
  - apply parse_value_string.
  - destruct elements as [|e l]; [done |].
    assert (e :: l ≠ []) as Hne by done.
    change (SerializeJSONProperty indent (JArray (e :: l)))
      with ("[" +:+ newline +:+ (indent +:+ gap)
            +:+ String.concat ("," +:+ newline +:+ (indent +:+ gap))
                  (map (SerializeJSONProperty (indent +:+ gap)) (e :: l))
            +:+ newline +:+ indent +:+ "]").
    set (inner := indent +:+ gap) in *. rewrite !append_assoc.
    rewrite parse_value_array; [| done | apply (elements_start _ _ e l)].
    rewrite (parse_elements_serialized inner indent (e :: l)
               Hinner Hi Hne IH fuel rest);
      [done | simpl in Hfuel; simpl; lia | done].
  - destruct members as [|m l]; [done |].
    assert (m :: l ≠ []) as Hne by done.
    change (SerializeJSONProperty indent (JObject (m :: l)))
      with ("{" +:+ newline +:+ (indent +:+ gap)
            +:+ String.concat ("," +:+ newline +:+ (indent +:+ gap))
                  (map (fun m : string * json =>
                          QuoteJSONString (fst m) +:+ ": "
                          +:+ SerializeJSONProperty (indent +:+ gap) (snd m))
                       (m :: l))
            +:+ newline +:+ indent +:+ "}").
    set (inner := indent +:+ gap) in *. rewrite !append_assoc.
    rewrite parse_value_object; [| done | apply (members_start _ _ m l)].
    destruct Hwf as [Hnd Hwf].
    rewrite (parse_members_serialized inner indent (m :: l)
               Hinner Hi Hne IH fuel rest);
      [by rewrite object_of_distinct | simpl in Hfuel; simpl; lia | done].
Qed.

Lemma concat_length_bound {A} (size : A → nat) (text : A → string)
    (sep : string) (l : list A) :
  Forall (fun x => (size x ≤ String.length (text x))%nat) l →
  (1 ≤ String.length sep)%nat →
  (fold_right (fun x acc => S (size x) + acc) 0 l
   ≤ String.length (String.concat sep (map text l)) + 1)%nat.
Proof.
  intros Hall Hsep. induction Hall as [|x l Hx Hall IH]; [simpl; lia |].
  destruct l as [|y l]; [simpl; lia |].
  change (fold_right ?f 0 (x :: y :: l))
    with (S (size x) + fold_right f 0 (y :: l)).
  change (String.concat sep (map text (x :: y :: l)))
    with (text x +:+ sep +:+ String.concat sep (map text (y :: l))).
  rewrite !length_append. lia.
Qed.

Lemma json_size_le_length (v : json) (indent : string) :
  (json_size v ≤ String.length (SerializeJSONProperty indent v))%nat.
Proof.
  revert indent.
  induction v as [s | elements IH | members IH] using json_nested_ind;
    intros indent.
  - simpl. lia.
  - destruct elements as [|e l]; [simpl; lia |].
    change (SerializeJSONProperty indent (JArray (e :: l)))
      with ("[" +:+ newline +:+ (indent +:+ gap)
            +:+ String.concat ("," +:+ newline +:+ (indent +:+ gap))
                  (map (SerializeJSONProperty (indent +:+ gap)) (e :: l))
            +:+ newline +:+ indent +:+ "]").
    change (json_size (JArray (e :: l)))
      with (S (fold_right (fun e acc => S (json_size e) + acc) 0 (e :: l))).
    pose proof (concat_length_bound json_size
                  (SerializeJSONProperty (indent +:+ gap))
                  ("," +:+ newline +:+ (indent +:+ gap)) (e :: l)) as Hbound.
    remember (String.concat _ _) as properties eqn:Hp. clear Hp.
    remember (fold_right _ _ _) as total eqn:Ht. clear Ht.
    rewrite !length_append.
    change (String.length "[") with 1. change (String.length "]") with 1.
    change (String.length newline) with 1.
    enough (total ≤ String.length properties + 1)%nat by lia.
    apply Hbound; [| simpl; lia].
    eapply Forall_impl; [exact IH | intros x Hx; apply Hx].
  - destruct members as [|m l]; [simpl; lia |].
    change (SerializeJSONProperty indent (JObject (m :: l)))
      with ("{" +:+ newline +:+ (indent +:+ gap)
            +:+ String.concat ("," +:+ newline +:+ (indent +:+ gap))
                  (map (fun m : string * json =>
                          QuoteJSONString (fst m) +:+ ": "
                          +:+ SerializeJSONProperty (indent +:+ gap) (snd m))
                       (m :: l))
            +:+ newline +:+ indent +:+ "}").
    change (json_size (JObject (m :: l)))
      with (S (fold_right (fun m acc => S (json_size (snd m)) + acc) 0
                 (m :: l))).
    pose proof (concat_length_bound
                  (fun m : string * json => json_size (snd m))
                  (fun m : string * json =>
                     QuoteJSONString (fst m) +:+ ": "
                     +:+ SerializeJSONProperty (indent +:+ gap) (snd m))
                  ("," +:+ newline +:+ (indent +:+ gap)) (m :: l)) as Hbound.
    remember (String.concat _ _) as properties eqn:Hp. clear Hp.
    remember (fold_right _ _ _) as total eqn:Ht. clear Ht.
    rewrite !length_append.
    change (String.length "{") with 1. change (String.length "}") with 1.
    change (String.length newline) with 1.
    enough (total ≤ String.length properties + 1)%nat by lia.
    apply Hbound; [| simpl; lia].
    eapply Forall_impl; [exact IH |]. intros x Hx. simpl in Hx.
    rewrite !length_append. specialize (Hx (indent +:+ gap)). lia.
Qed.

(** Parsing the text that [JSON.stringify(value, null, 2)] produces gives
    the value back. *)
Lemma JSON_parse_stringify (v : json) :
  wf_json v → JSON_parse (JSON_stringify v) = Some v.
Proof.
  intros Hwf. unfold JSON_parse, JSON_stringify.
  pose proof (serialize_starts EmptyString v EmptyString) as Hstart.
  rewrite append_nil_r in Hstart. rewrite skip_ws_starts by done.
  pose proof (serialized_reads_back v EmptyString
                (String.length (SerializeJSONProperty EmptyString v))
                EmptyString eq_refl (json_size_le_length v _) Hwf) as Hread.
  rewrite append_nil_r in Hread. by rewrite Hread.
Qed.

Lemma wf_json_strings (items : list string) :
  wf_json (JArray (map JString items)).
Proof. simpl. induction items as [|item items IH]; simpl; auto. Qed.

Lemma keys_json_of_sections (o : list (string * list string)) :
  fst <$> json_of_sections o = fst <$> o.
Proof. induction o as [|[k v] o IH]; simpl; [done | by f_equal]. Qed.

Lemma wf_json_of_sections (o : list (string * list string)) :
  distinct_keys o → wf_json (JObject (json_of_sections o)).
Proof.
  intros Hnd. split.
  - unfold distinct_keys. by rewrite keys_json_of_sections.
  - clear Hnd. induction o as [|[k v] o IH]; simpl; [done |].
    split; [apply (wf_json_strings v) | apply IH].
Qed.

Lemma wf_json_of_checklist (c : ChecklistData) :
  distinct_keys (sections c) → wf_json (json_of_checklist c).
Proof.
  intros Hnd. split.
  - apply (bool_decide_unpack _). by vm_compute.
  - simpl. repeat split; try done.
    + unfold distinct_keys. by rewrite keys_json_of_sections.
    + apply (wf_json_of_sections _ Hnd).
Qed.

Lemma json_of_sections_inj (o o' : list (string * list string)) :
  json_of_sections o = json_of_sections o' → o = o'.
Proof.
  revert o'. induction o as [|[k v] o IH]; intros [|[k' v'] o']; simpl;
    try done.
  intros [= -> Hv Ho]. f_equal; [| by apply IH]. f_equal.
  clear -Hv. revert v' Hv.
  induction v as [|x v IHv]; intros [|x' v']; simpl; try done.
  intros [= -> Hv]. f_equal. by apply IHv.
Qed.

Lemma json_of_checklist_inj (c c' : ChecklistData) :
  json_of_checklist c = json_of_checklist c' → c = c'.
Proof.
  destruct c, c'. unfold json_of_checklist. simpl.
  intros [= -> -> -> -> -> -> -> -> Hs].
  by apply json_of_sections_inj in Hs as ->.
Qed.

(** ** The copy handler *)

(** C6. With a checklist selected, the copy handler writes to the clipboard
    the text [JSON.stringify(selectedChecklist, null, 2)] of the whole
    record, and parsing that text gives back the record and no other; the
    handler reads nothing but the selected checklist, so the search string
    and the viewer's checked-state map have no part in it.  With no
    checklist selected it does nothing. *)
Theorem copy_json_round_trips (app : App) :
  (∀ c, selectedChecklist (page app) = Some c →
        clipboard_writes_of (fst (handleCopyJSON (page app)))
        = [JSON_stringify (json_of_checklist c)]
        ∧ (distinct_keys (sections c) →
           JSON_parse (JSON_stringify (json_of_checklist c))
           = Some (json_of_checklist c)
           ∧ ∀ c', JSON_parse (JSON_stringify (json_of_checklist c))
                   = Some (json_of_checklist c') → c' = c))
  ∧ (∀ app', selectedChecklist (page app') = selectedChecklist (page app) →
             handleCopyJSON (page app') = handleCopyJSON (page app))
  ∧ (selectedChecklist (page app) = None →
     fst (handleCopyJSON (page app)) = []).
Proof.
  split; [| split].
  - intros c Hc. unfold handleCopyJSON. rewrite Hc. split; [done |].
    intros Hnd.
    pose proof (JSON_parse_stringify _ (wf_json_of_checklist c Hnd)) as Hrt.
    split; [exact Hrt |]. intros c' Hc'. rewrite Hrt in Hc'.
    symmetry. apply json_of_checklist_inj. congruence.
  - intros app' Hsame. unfold handleCopyJSON. by rewrite Hsame.
  - intros Hnone. unfold handleCopyJSON. by rewrite Hnone.
Qed.

(** C6, at one input: the press checklist copied while a search string is
    set and one row is ticked. *)
Lemma copy_json_round_trips_witness :
  clipboard_writes_of
    (fst (handleCopyJSON
            {| selectedChecklistId := "press";
               selectedChecklist := Some two_sections;
               searchQuery := "gauge";
               showChecklist := true |}))
  = [JSON_stringify (json_of_checklist two_sections)]
  ∧ JSON_parse (JSON_stringify (json_of_checklist two_sections))
    = Some (json_of_checklist two_sections).
Proof.
  destruct (copy_json_round_trips
              {| page := {| selectedChecklistId := "press";
                            selectedChecklist := Some two_sections;
                            searchQuery := "gauge";
                            showChecklist := true |};
                 viewer := Some {[ "Notes-0" := true ]} |})
    as [Hcopy _].
  destruct (Hcopy two_sections eq_refl) as [Hwrite Hparse].
  split; [exact Hwrite |]. apply Hparse.
  apply (bool_decide_unpack _). vm_compute. exact I.
Defined.

(** ** The model at work *)

(** A tick made under a search string lands on another item once the search
    is cleared: "Record pressure" was ticked as the row at position 0, and
    with the full list shown the tick sits on "Check oil level". *)
Example tick_under_search_moves :
  (row_text <$> rendered_row (run example_data initialApp
                                [OnValueChange "pump"; ClickGenerate;
                                 OnSearchChange "pressure"])
                             "Notes" 0) = Some "Record pressure"
  ∧ ((fun row => (row_text row, row_checked row))
       <$> rendered_row (run example_data initialApp tick_under_search_session)
                        "Notes" 0) = Some ("Check oil level", true)
  ∧ ((fun row => (row_text row, row_checked row))
       <$> rendered_row (run example_data initialApp tick_under_search_session)
                        "Notes" 1) = Some ("Record pressure", false).
Proof. repeat split; by vm_compute. Qed.

(** The parser reads more than the serializer writes: white space between
    tokens, the escapes [\uXXXX], [\/] and [\t], and a repeated key, whose
    last value wins. *)
Example JSON_parse_loose_array :
  JSON_parse loose_array_text
  = Some (JArray [JString "aB/"; JString (String "009" EmptyString)]).
Proof. by vm_compute. Qed.

Example JSON_parse_repeated_key :
  JSON_parse repeated_key_text = Some (JObject [("k", JString "y")]).
Proof. by vm_compute. Qed.


(* ===================================================================== *)
(** * Further properties *)
(* ===================================================================== *)

(** ** Searching *)






Lemma filter_sublist {A} (f : A → bool) (l : list A) :
  List.filter f l `sublist_of` l.
Proof.
  induction l as [|x l IH]; simpl; [constructor |].
  destruct (f x); by constructor.
Qed.

Lemma filterItems_sublist (q : string) (items : list string) :
  filterItems q items `sublist_of` items.
Proof.
  unfold filterItems. destruct (negb (truthy q)); [done | apply filter_sublist].
Qed.



(** ** What the viewer displays *)



(** X5. Every card displayed either has rows or carries the "no items"
    notice, never both and never neither; under a non-empty search string
    every card displayed has rows. *)
Theorem displayed_cards_rows_or_notice (checklist : ChecklistData)
    (searchQuery : string) (checkedItems : gmap string bool) :
  Forall (fun card =>
            (card_no_items card = true ↔ card_rows card = [])
            ∧ (searchQuery ≠ EmptyString → card_rows card ≠ []))
         (displayedSections checklist searchQuery checkedItems).
Proof.
  apply Forall_forall. intros card Hcard.
  apply elem_of_displayedSections in Hcard as (name & _ & Hcard).
  apply renderSection_shown in Hcard as [-> Hguard]. simpl.
  destruct (filtered_items checklist searchQuery name) as [|x l]; simpl in *.
  - rewrite Hguard. split; [done |]. intros Hq. apply truthy_true in Hq.
    congruence.
  - split; [| done]. split; done.
Qed.

Lemma row_ids (checkedItems : gmap string bool) (sectionName : string)
    (items : list string) :
  row_id <$> imap (renderRow checkedItems sectionName) items
  = item_key sectionName <$> seq 0 (length items).
Proof.
  apply list_eq. intros i.
  rewrite !list_lookup_fmap, lookup_renderRows.
  destruct (items !! i) as [item|] eqn:Hi; simpl.
  - rewrite lookup_seq_lt by (by eapply lookup_lt_Some). done.
  - rewrite lookup_seq_ge by (by apply lookup_ge_None). done.
Qed.

Lemma sectionOrder_NoDup : NoDup sectionOrder.
Proof. apply (bool_decide_unpack _). by vm_compute. Qed.

Lemma displayed_row_ids_unfold (checklist : ChecklistData)
    (searchQuery : string) (checkedItems : gmap string bool)
    (names : list string) :
  row_id <$> displayed_rows
               (omap (fun card => card)
                  (renderSection checklist searchQuery checkedItems <$> names))
  = (fun place : string * nat => item_key place.1 place.2)
      <$> (names ≫= fun name =>
             if (length (filtered_items checklist searchQuery name) =? 0)%nat
                && truthy searchQuery
             then []
             else pair name
                    <$> seq 0 (length (filtered_items checklist searchQuery name))).
Proof.
  unfold displayed_rows.
  induction names as [|name names IH]; [done |].
  rewrite fmap_cons, bind_cons, fmap_app, <- IH. clear IH.
  unfold renderSection at 1. cbv zeta.
  fold (section_items checklist name).
  fold (filtered_items checklist searchQuery name).
  destruct (_ && truthy searchQuery); simpl; [done |].
  rewrite fmap_app, row_ids. f_equal.
  by rewrite <- list_fmap_compose.
Qed.

(** X6. Within one display every heading occurs once and no two rows share
    a key, whatever the section names and the search string: the checkbox
    of a row is the only one that reads and writes the row's entry. *)
Theorem displayed_keys_distinct (checklist : ChecklistData)
    (searchQuery : string) (checkedItems : gmap string bool) :
  NoDup (card_heading
           <$> displayedSections checklist searchQuery checkedItems)
  ∧ NoDup (row_id
             <$> displayed_rows
                   (displayedSections checklist searchQuery checkedItems)).
Proof.
  split.
  - eapply sublist_NoDup; [apply sectionOrder_NoDup | apply headings_sublist].
  - unfold displayedSections, renderSections.
    rewrite displayed_row_ids_unfold. apply NoDup_fmap_2_strong.
    + intros [s i] [s' i'] _ _ Hk. simpl in Hk.
      by apply item_key_inj in Hk as [-> ->].
    + apply NoDup_bind; [| | apply sectionOrder_NoDup].
      * intros name name' place _ _ Hin Hin'.
        destruct (_ && _) in Hin; [by apply elem_of_nil in Hin |].
        destruct (_ && _) in Hin'; [by apply elem_of_nil in Hin' |].
        apply list_elem_of_fmap in Hin as (i & -> & _).
        apply list_elem_of_fmap in Hin' as (i' & [= -> _] & _). done.
      * intros name _. destruct (_ && _); [constructor |].
        apply NoDup_fmap_2; [| apply NoDup_seq].
        intros i i' [= ->]. done.
Qed.

(** ** Ticking *)

Lemma isChecked_handleItemCheck (checkedItems : gmap string bool)
    (sectionName : string) (index : nat) (name : string) (position : nat) :
  isChecked (handleItemCheck sectionName index checkedItems)
            (item_key name position)
  = if bool_decide ((name, position) = (sectionName, index))
    then negb (isChecked checkedItems (item_key name position))
    else isChecked checkedItems (item_key name position).
Proof.
  case_bool_decide as Hplace.
  - injection Hplace as -> ->. apply isChecked_handleItemCheck_same.
  - unfold isChecked. rewrite lookup_handleItemCheck_ne; [done |].
    intros Hk. apply item_key_inj in Hk as [-> ->]. done.
Qed.

(** X7. A tick changes the display in one place only: rendered with the
    checked-state map the tick leaves, every section is what it was with
    the row at the ticked place flipped, if that row is one of its rows, and
    with every other row, every heading, text and key as before. *)
Theorem tick_flips_one_row (checklist : ChecklistData) (searchQuery : string)
    (checkedItems : gmap string bool) (sectionName : string) (index : nat)
    (name : string) :
  renderSection checklist searchQuery
    (handleItemCheck sectionName index checkedItems) name
  = tick_card sectionName index
      <$> renderSection checklist searchQuery checkedItems name.
Proof.
  unfold renderSection. cbv zeta.
  destruct (_ && truthy searchQuery); [done |]. simpl.
  unfold tick_card. simpl. do 2 f_equal.
  apply list_eq. intros position.
  rewrite !list_lookup_imap.
  destruct (filterItems searchQuery _ !! position) as [item|]; [| done].
  simpl. f_equal. unfold renderRow. cbv zeta.
  rewrite isChecked_handleItemCheck. by case_bool_decide.
Qed.

(** X8. After any number of ticks of one row its checkbox reads as before
    when the number is even and flipped when it is odd. *)
Theorem handleItemCheck_parity (checkedItems : gmap string bool)
    (sectionName : string) (index : nat) (n : nat) :
  isChecked (Nat.iter n (handleItemCheck sectionName index) checkedItems)
            (item_key sectionName index)
  = xorb (Nat.odd n) (isChecked checkedItems (item_key sectionName index)).
Proof.
  induction n as [|n IH]; [done |].
  rewrite Nat.iter_succ, isChecked_handleItemCheck_same, IH, Nat.odd_succ.
  rewrite <- Nat.negb_odd.
  by destruct (Nat.odd n), (isChecked checkedItems _).
Qed.

(** X9. Ticks commute: two ticks leave the same checked-state map in
    either order. *)
Theorem handleItemCheck_commute (checkedItems : gmap string bool)
    (sectionName : string) (index : nat) (otherSection : string)
    (otherIndex : nat) :
  handleItemCheck sectionName index
    (handleItemCheck otherSection otherIndex checkedItems)
  = handleItemCheck otherSection otherIndex
      (handleItemCheck sectionName index checkedItems).
Proof.
  destruct (decide (item_key sectionName index
                    = item_key otherSection otherIndex)) as [Hk | Hk].
  - by apply item_key_inj in Hk as [-> ->].
  - unfold handleItemCheck. cbv zeta.
    rewrite !lookup_insert_ne by done. by apply insert_insert_ne.
Qed.

(** X10. A tick always leaves an entry under the row's key, so the map never
    loses a key and gains at most this one; two ticks of one row give back
    the very map only if the row had an entry before: a row ticked and
    unticked for the first time is recorded as [false]. *)
Theorem handleItemCheck_records (checkedItems : gmap string bool)
    (sectionName : string) (index : nat) :
  handleItemCheck sectionName index checkedItems !! item_key sectionName index
  = Some (negb (isChecked checkedItems (item_key sectionName index)))
  ∧ dom (handleItemCheck sectionName index checkedItems)
    = {[ item_key sectionName index ]} ∪ dom checkedItems
  ∧ handleItemCheck sectionName index
      (handleItemCheck sectionName index checkedItems)
    = <[ item_key sectionName index
         := isChecked checkedItems (item_key sectionName index) ]> checkedItems
  ∧ (handleItemCheck sectionName index
       (handleItemCheck sectionName index checkedItems) = checkedItems
     ↔ is_Some (checkedItems !! item_key sectionName index)).
Proof.
  assert (handleItemCheck sectionName index
            (handleItemCheck sectionName index checkedItems)
          = <[ item_key sectionName index
               := isChecked checkedItems (item_key sectionName index) ]>
              checkedItems) as Htwice.
  { unfold handleItemCheck at 1. cbv zeta.
    fold (isChecked (handleItemCheck sectionName index checkedItems)
            (item_key sectionName index)).
    rewrite isChecked_handleItemCheck_same, negb_involutive.
    unfold handleItemCheck. cbv zeta. apply insert_insert_eq. }
  split; [| split; [| split; [exact Htwice |]]].
  - unfold handleItemCheck, isChecked. cbv zeta. apply lookup_insert_eq.
  - unfold handleItemCheck. cbv zeta. apply dom_insert_L.
  - rewrite Htwice. unfold isChecked. split.
    + intros Heq. rewrite <- Heq. rewrite lookup_insert_eq. eauto.
    + intros [b Hb]. rewrite Hb. simpl. by apply insert_id.
Qed.

(** ** The page *)

Lemma apply_effects_copy (st : IndexState) :
  apply_effects st (fst (handleCopyJSON st)) = st.
Proof. unfold handleCopyJSON. by destruct (selectedChecklist st). Qed.

(** X11. Whenever the copy button is on the page a checklist is stored, so
    a click on it always writes that checklist to the clipboard, raises the
    "copied" notification and leaves the page state as it is. *)
Theorem copy_button_always_copies (st : IndexState) :
  toolbar_rendered st = true →
  ∃ c, selectedChecklist st = Some c
       ∧ handleCopyJSON st
         = ([ClipboardWriteText (JSON_stringify (json_of_checklist c));
             ShowToast copied_toast], Returned)
       ∧ apply_effects st (fst (handleCopyJSON st)) = st.
Proof.
  unfold toolbar_rendered, viewer_rendered. intros Hshown.
  apply andb_true_iff in Hshown as [_ Hstored].
  destruct (selectedChecklist st) as [c|] eqn:Hc; [| done].
  exists c. split; [done |]. split; [| apply apply_effects_copy].
  unfold handleCopyJSON. by rewrite Hc.
Qed.

(** X11, at one input: a page showing the pump checklist under a search string. *)
Lemma copy_button_always_copies_witness :
  ∃ c, Some two_notes = Some c
       ∧ clipboard_writes_of
           (fst (handleCopyJSON
                   {| selectedChecklistId := "pump";
                      selectedChecklist := Some two_notes;
                      searchQuery := "oil";
                      showChecklist := true |}))
         = [JSON_stringify (json_of_checklist c)].
Proof.
  destruct (copy_button_always_copies
              {| selectedChecklistId := "pump";
                 selectedChecklist := Some two_notes;
                 searchQuery := "oil";
                 showChecklist := true |} eq_refl)
    as (c & Hc & Hcopy & _).
  exists c. split; [exact Hc | by rewrite Hcopy].
Defined.

Lemma keyed_lookup (checklistData : list (string * ChecklistData))
    (k : string) (c : ChecklistData) :
  keyed_by_id checklistData →
  (k, c) ∈ checklistData → get_prop checklistData k = Some c ∧ id c = k.
Proof.
  intros [Hnd Hid] Hin. split; [by apply get_prop_Some |].
  rewrite Forall_forall in Hid. apply (Hid _ Hin).
Qed.

Lemma get_prop_elem_of (checklistData : list (string * ChecklistData))
    (k : string) (c : ChecklistData) :
  keyed_by_id checklistData →
  get_prop checklistData k = Some c → (id c, c) ∈ checklistData.
Proof.
  intros Hkeyed Hget. pose proof Hkeyed as [Hnd _].
  apply get_prop_Some in Hget; [| done].
  by destruct (keyed_lookup _ _ _ Hkeyed Hget) as [_ ->].
Qed.

Lemma elem_of_select_items (checklistData : list (string * ChecklistData))
    (item : SelectItem) :
  item ∈ select_items checklistData ↔
  ∃ k c, (k, c) ∈ checklistData
         ∧ item = {| item_value := id c; item_label := title c |}.
Proof.
  unfold select_items, checklists. rewrite list_elem_of_In, in_map_iff.
  split.
  - intros (c & <- & Hc). apply in_map_iff in Hc as ([k c'] & <- & Hin).
    exists k, c'. split; [by apply list_elem_of_In | done].
  - intros (k & c & Hin & ->). exists c. split; [done |].
    apply in_map_iff. exists (k, c). split; [done | by apply list_elem_of_In].
Qed.

Lemma dropdown_value_found (checklistData : list (string * ChecklistData))
    (value : string) :
  keyed_by_id checklistData →
  value ∈ item_value <$> select_items checklistData →
  is_Some (get_prop checklistData value).
Proof.
  intros Hkeyed Hin. apply list_elem_of_fmap in Hin as (item & -> & Hitem).
  apply elem_of_select_items in Hitem as (k & c & Hin & ->). simpl.
  destruct (keyed_lookup _ _ _ Hkeyed Hin) as [Hget <-]. eauto.
Qed.

Lemma example_data_keyed : keyed_by_id example_data.
Proof.
  split.
  - apply (bool_decide_unpack _). by vm_compute.
  - by repeat constructor.
Qed.

Lemma step_generate_present (checklistData : list (string * ChecklistData))
    (app : App) (c : ChecklistData) :
  selectedChecklistId (page app) ≠ EmptyString →
  get_prop checklistData (selectedChecklistId (page app)) = Some c →
  step checklistData app ClickGenerate
  = {| page := {| selectedChecklistId := selectedChecklistId (page app);
                  selectedChecklist := Some c;
                  searchQuery := searchQuery (page app);
                  showChecklist := true |};
       viewer := Some (default ∅ (viewer app)) |}.
Proof.
  intros Hid Hc. unfold step.
  rewrite (handleGenerateChecklist_present _ _ _ Hid Hc).
  apply truthy_true in Hid. rewrite Hid. simpl. unfold rerender. simpl.
  f_equal. by destruct (viewer app).
Qed.

(** X12. With a dataset keyed by the identifiers of its records, picking an
    item of the dropdown and clicking generate stores the record whose
    title the item showed, raises the "generated" notification for it, sets
    the show flag and has a viewer mounted in place of the welcome card. *)
Theorem pick_and_generate (checklistData : list (string * ChecklistData))
    (app : App) (item : SelectItem) :
  keyed_by_id checklistData →
  item ∈ select_items checklistData →
  item_value item ≠ EmptyString →
  ∃ c,
    (item_value item, c) ∈ checklistData
    ∧ title c = item_label item
    ∧ handleGenerateChecklist checklistData
        (page (step checklistData app (OnValueChange (item_value item))))
      = ([SetSelectedChecklist (Some c); SetShowChecklist true;
          ShowToast (generated_toast c)], Returned)
    ∧ selectedChecklist
        (page (run checklistData app
                 [OnValueChange (item_value item); ClickGenerate])) = Some c
    ∧ is_Some (viewer (run checklistData app
                         [OnValueChange (item_value item); ClickGenerate]))
    ∧ welcome_rendered
        (page (run checklistData app
                 [OnValueChange (item_value item); ClickGenerate])) = false.
Proof.
  intros Hkeyed Hitem Hvalue.
  apply elem_of_select_items in Hitem as (k & c & Hin & ->).
  cbn [item_value item_label] in *.
  destruct (keyed_lookup _ _ _ Hkeyed Hin) as [Hget Hk]. subst k.
  exists c. split; [done |]. split; [done |].
  assert (handleGenerateChecklist checklistData
            (page (step checklistData app (OnValueChange (id c))))
          = ([SetSelectedChecklist (Some c); SetShowChecklist true;
              ShowToast (generated_toast c)], Returned)) as Hgen
    by (by apply handleGenerateChecklist_present).
  split; [exact Hgen |].
  change (run checklistData app [OnValueChange (id c); ClickGenerate])
    with (step checklistData (step checklistData app (OnValueChange (id c)))
            ClickGenerate).
  rewrite (step_generate_present _ _ c) by done. simpl. eauto.
Qed.

(** X12, at one input: the press item picked on the first render of the example dataset. *)
Lemma pick_and_generate_witness :
  ∃ c, title c = "Press"
       ∧ selectedChecklist
           (page (run example_data initialApp
                    [OnValueChange "press"; ClickGenerate])) = Some c.
Proof.
  destruct (pick_and_generate example_data initialApp
              {| item_value := "press"; item_label := "Press" |}
              example_data_keyed)
    as (c & _ & Htitle & _ & Hstored & _).
  - apply list_elem_of_further, list_elem_of_here.
  - discriminate.
  - exists c. split; [exact Htitle | exact Hstored].
Defined.

Lemma step_generate_absent (checklistData : list (string * ChecklistData))
    (app : App) :
  selectedChecklistId (page app) ≠ EmptyString →
  get_prop checklistData (selectedChecklistId (page app)) = None →
  step checklistData app ClickGenerate
  = {| page := {| selectedChecklistId := selectedChecklistId (page app);
                  selectedChecklist := None;
                  searchQuery := searchQuery (page app);
                  showChecklist := true |};
       viewer := None |}.
Proof.
  intros Hid Hc. unfold step.
  rewrite (handleGenerateChecklist_absent _ _ Hid Hc).
  apply truthy_true in Hid. by rewrite Hid.
Qed.

(** X13. The dropdown offers the [id] of each record while generate looks
    the selection up among the keys of the dataset.  For a record stored
    under a key other than its [id], with no key equal to that [id], the
    item is on offer, and picking it and clicking generate ends in the
    [TypeError]; the page is then left with the show flag set and no
    checklist, showing neither the welcome card nor a viewer nor the
    toolbar. *)
Theorem pick_miskeyed_blank (checklistData : list (string * ChecklistData))
    (app : App) (k : string) (c : ChecklistData) :
  (k, c) ∈ checklistData →
  id c ≠ EmptyString →
  get_prop checklistData (id c) = None →
  {| item_value := id c; item_label := title c |} ∈ select_items checklistData
  ∧ snd (handleGenerateChecklist checklistData
           (page (step checklistData app (OnValueChange (id c)))))
    = ThrewTypeError
  ∧ run checklistData app [OnValueChange (id c); ClickGenerate]
    = {| page := {| selectedChecklistId := id c;
                    selectedChecklist := None;
                    searchQuery := searchQuery (page app);
                    showChecklist := true |};
         viewer := None |}
  ∧ welcome_rendered
      (page (run checklistData app [OnValueChange (id c); ClickGenerate]))
    = false
  ∧ viewer_rendered
      (page (run checklistData app [OnValueChange (id c); ClickGenerate]))
    = false
  ∧ toolbar_rendered
      (page (run checklistData app [OnValueChange (id c); ClickGenerate]))
    = false.
Proof.
  intros Hin Hid Hnone.
  split; [apply elem_of_select_items; eauto |].
  split; [by rewrite handleGenerateChecklist_absent |].
  change (run checklistData app [OnValueChange (id c); ClickGenerate])
    with (step checklistData (step checklistData app (OnValueChange (id c)))
            ClickGenerate).
  by rewrite step_generate_absent.
Qed.

(** X13, at one input: the pump record stored under the key pump-1. *)
Lemma pick_miskeyed_blank_witness :
  welcome_rendered
    (page (run miskeyed_data initialApp [OnValueChange "pump"; ClickGenerate]))
  = false
  ∧ viewer_rendered
      (page (run miskeyed_data initialApp [OnValueChange "pump"; ClickGenerate]))
    = false.
Proof.
  destruct (pick_miskeyed_blank miskeyed_data initialApp "pump-1" two_notes)
    as (_ & _ & _ & Hwelcome & Hviewer & _).
  - apply list_elem_of_here.
  - discriminate.
  - reflexivity.
  - split; [exact Hwelcome | exact Hviewer].
Defined.

Lemma searchQuery_apply_effects (st : IndexState) (effects : list Effect) :
  searchQuery (apply_effects st effects) = searchQuery st.
Proof.
  unfold apply_effects. revert st.
  induction effects as [|e effects IH]; intros st; [done |].
  simpl. rewrite IH. by destruct e.
Qed.

(** X14. The search string is what was last typed into the search field:
    no other event touches it, so a checklist generated while a search
    string is set is shown filtered by it from the start. *)
Theorem search_string_is_last_typed
    (checklistData : list (string * ChecklistData)) (app : App)
    (events : list Event) :
  searchQuery (page (run checklistData app events))
  = last_search (searchQuery (page app)) events.
Proof.
  unfold run, last_search. revert app.
  induction events as [|ev events IH]; intros app; [done |].
  simpl. rewrite IH. f_equal.
  destruct ev as [value | | value | sectionName index |]; simpl; try done.
  - destruct (negb _); [done |]. simpl. apply searchQuery_apply_effects.
  - by destruct (rendered_row app sectionName index), (viewer app).
  - apply searchQuery_apply_effects.
Qed.

Lemma initialApp_consistent (checklistData : list (string * ChecklistData)) :
  consistent checklistData initialApp.
Proof.
  unfold consistent. simpl. split; [by left |]. split.
  - split; [done | by intros [? ?]].
  - split; [done |]. split; [by intros [? ?] | done].
Qed.

Lemma reconcile_consistent (mounted : option (gmap string bool))
    (st : IndexState) :
  is_Some (reconcile mounted st) ↔ viewer_rendered st = true.
Proof.
  unfold reconcile. destruct (viewer_rendered st).
  - split; [done |]. intros _. destruct mounted; eauto.
  - split; [by intros [? ?] | done].
Qed.

Lemma step_consistent (checklistData : list (string * ChecklistData))
    (app : App) (ev : Event) :
  keyed_by_id checklistData →
  from_widgets checklistData ev = true →
  consistent checklistData app →
  consistent checklistData (step checklistData app ev).
Proof.
  intros Hkeyed Hev Happ.
  pose proof Happ as (Hid & Hshow & Hstored & Hviewer).
  destruct ev as [value | | value | sectionName index |].
  - simpl in Hev. apply bool_decide_eq_true in Hev.
    unfold consistent. simpl. split; [| split; [done | split; [done |]]].
    + right. by apply dropdown_value_found.
    + apply reconcile_consistent.
  - destruct Hid as [Hempty | [c Hc]].
    + unfold step. by rewrite Hempty.
    + destruct (decide (selectedChecklistId (page app) = EmptyString))
        as [Hempty | Hne].
      * unfold step. by rewrite Hempty.
      * rewrite (step_generate_present _ _ c) by done.
        unfold consistent. simpl. split; [right; eauto |].
        split; [split; eauto |]. split.
        -- intros c' [= <-]. by eapply get_prop_elem_of.
        -- split; [done | eauto].
  - unfold consistent. simpl. split; [done | split; [done | split; [done |]]].
    apply reconcile_consistent.
  - unfold step.
    destruct (rendered_row app sectionName index) as [row|] eqn:Hrow;
      [| done].
    destruct (viewer app) as [checkedItems|] eqn:Hv; [| done].
    unfold consistent. simpl. split; [done | split; [done | split; [done |]]].
    split; [intros _; apply Hviewer; eauto | eauto].
  - unfold step. rewrite apply_effects_copy.
    unfold consistent. simpl. split; [done | split; [done | split; [done |]]].
    apply reconcile_consistent.
Qed.

Lemma run_consistent (checklistData : list (string * ChecklistData))
    (events : list Event) (app : App) :
  keyed_by_id checklistData →
  forallb (from_widgets checklistData) events = true →
  consistent checklistData app →
  consistent checklistData (run checklistData app events).
Proof.
  intros Hkeyed. revert app.
  induction events as [|ev events IH]; intros app Hevents Happ; [done |].
  simpl in Hevents. apply andb_true_iff in Hevents as [Hev Hevents].
  apply IH; [done |]. by apply step_consistent.
Qed.

(** X15. With a dataset keyed by identifier, in every state the page reaches
    from its first render through its widgets: the show flag is set exactly
    when a checklist is stored, the stored checklist is a record of the
    dataset, a viewer instance is mounted exactly when the show flag is set,
    exactly one of the welcome card and the viewer is on the page, and a
    click on generate would not throw. *)
Theorem reachable_pages_coherent
    (checklistData : list (string * ChecklistData)) (events : list Event) :
  keyed_by_id checklistData →
  forallb (from_widgets checklistData) events = true →
  (showChecklist (page (run checklistData initialApp events)) = true
   ↔ is_Some (selectedChecklist (page (run checklistData initialApp events))))
  ∧ (∀ c, selectedChecklist (page (run checklistData initialApp events))
          = Some c →
          get_prop checklistData (id c) = Some c)
  ∧ (is_Some (viewer (run checklistData initialApp events))
     ↔ showChecklist (page (run checklistData initialApp events)) = true)
  ∧ welcome_rendered (page (run checklistData initialApp events))
    = negb (viewer_rendered (page (run checklistData initialApp events)))
  ∧ snd (handleGenerateChecklist checklistData
           (page (run checklistData initialApp events))) = Returned.
Proof.
  intros Hkeyed Hevents.
  pose proof (run_consistent checklistData events initialApp Hkeyed Hevents
                (initialApp_consistent checklistData))
    as (Hid & Hshow & Hstored & Hviewer).
  set (app := run checklistData initialApp events) in *.
  assert (viewer_rendered (page app) = showChecklist (page app)) as Hrendered.
  { unfold viewer_rendered.
    destruct (showChecklist (page app)) eqn:Hs; [| done].
    destruct (proj1 Hshow eq_refl) as [c ->]. done. }
  split; [exact Hshow |]. split; [| split; [| split]].
  - intros c Hc. apply Hstored in Hc. by apply keyed_lookup in Hc as [? _].
  - by rewrite Hviewer, Hrendered.
  - unfold welcome_rendered. by rewrite Hrendered.
  - unfold handleGenerateChecklist.
    destruct Hid as [-> | [c Hc]]; [done |]. rewrite Hc.
    by destruct (negb _).
Qed.

(** X15, at one input: the page after the session of two checklists. *)
Lemma reachable_pages_coherent_witness :
  welcome_rendered (page (run example_data initialApp two_checklists_session))
  = negb (viewer_rendered
            (page (run example_data initialApp two_checklists_session)))
  ∧ snd (handleGenerateChecklist example_data
           (page (run example_data initialApp two_checklists_session)))
    = Returned.
Proof.
  destruct (reachable_pages_coherent example_data two_checklists_session
              example_data_keyed eq_refl)
    as (_ & _ & _ & Hwelcome & Hgenerate).
  split; [exact Hwelcome | exact Hgenerate].
Defined.

Lemma reconcile_mounted (checkedItems : gmap string bool) (st : IndexState) :
  viewer_rendered st = true → reconcile (Some checkedItems) st = Some checkedItems.
Proof. unfold reconcile. by intros ->. Qed.

Lemma step_keeps_ticks (checklistData : list (string * ChecklistData))
    (app : App) (ev : Event) (checkedItems : gmap string bool) :
  keyed_by_id checklistData →
  consistent checklistData app →
  is_tick ev = false →
  viewer app = Some checkedItems →
  viewer (step checklistData app ev) = Some checkedItems.
Proof.
  intros Hkeyed (Hid & Hshow & Hstored & Hviewer) Htick Hmounted.
  assert (viewer_rendered (page app) = true) as Hrendered
    by (apply Hviewer; rewrite Hmounted; eauto).
  destruct ev as [value | | value | sectionName index |]; [| | | done |].
  - simpl. rewrite Hmounted. by apply reconcile_mounted.
  - destruct (decide (selectedChecklistId (page app) = EmptyString))
      as [Hempty | Hne].
    + unfold step. by rewrite Hempty.
    + destruct Hid as [? | [c Hc]]; [done |].
      rewrite (step_generate_present _ _ c) by done. simpl.
      by rewrite Hmounted.
  - simpl. rewrite Hmounted. by apply reconcile_mounted.
  - unfold step. rewrite apply_effects_copy. simpl.
    rewrite Hmounted. by apply reconcile_mounted.
Qed.

Lemma run_keeps_ticks (checklistData : list (string * ChecklistData))
    (events : list Event) (app : App) (checkedItems : gmap string bool) :
  keyed_by_id checklistData →
  consistent checklistData app →
  forallb (fun ev => from_widgets checklistData ev && negb (is_tick ev))
          events = true →
  viewer app = Some checkedItems →
  viewer (run checklistData app events) = Some checkedItems.
Proof.
  intros Hkeyed. revert app.
  induction events as [|ev events IH]; intros app Happ Hevents Hmounted;
    [done |].
  simpl in Hevents.
  apply andb_true_iff in Hevents as [[Hev Htick]%andb_true_iff Hevents].
  apply negb_true_iff in Htick.
  apply IH; [by apply step_consistent | done | by apply step_keeps_ticks].
Qed.

(** X16. With a dataset keyed by identifier, once a viewer is mounted no
    event other than a tick changes its checked-state map: selecting,
    generating again, searching and copying, in any number and order, leave
    every tick where it is. *)
Theorem ticks_outlive_other_events
    (checklistData : list (string * ChecklistData))
    (events more : list Event) (checkedItems : gmap string bool) :
  keyed_by_id checklistData →
  forallb (from_widgets checklistData) events = true →
  viewer (run checklistData initialApp events) = Some checkedItems →
  forallb (fun ev => from_widgets checklistData ev && negb (is_tick ev))
          more = true →
  viewer (run checklistData initialApp (events ++ more)%list)
  = Some checkedItems.
Proof.
  intros Hkeyed Hevents Hmounted Hmore. unfold run at 1.
  rewrite fold_left_app.
  apply (run_keeps_ticks checklistData more); try done.
  apply run_consistent; [done | done | apply initialApp_consistent].
Qed.

(** X16, at one input: one tick followed by a search, another generation, a copy and a cleared search. *)
Lemma ticks_outlive_other_events_witness :
  viewer (run example_data initialApp
            ([OnValueChange "pump"; ClickGenerate; OnCheckedChange "Notes" 0]
             ++ [OnSearchChange "oil"; OnValueChange "press"; ClickGenerate;
                 ClickCopyJSON; OnSearchChange EmptyString])%list)
  = Some {[ "Notes-0" := true ]}.
Proof.
  apply (ticks_outlive_other_events example_data
           [OnValueChange "pump"; ClickGenerate; OnCheckedChange "Notes" 0]
           [OnSearchChange "oil"; OnValueChange "press"; ClickGenerate;
            ClickCopyJSON; OnSearchChange EmptyString]
           {[ "Notes-0" := true ]} example_data_keyed);
    by vm_compute.
Defined.

Lemma sublist_lookup_later {A} (l k : list A) (i : nat) (x : A) :
  l `sublist_of` k → l !! i = Some x → ∃ j, (i ≤ j)%nat ∧ k !! j = Some x.
Proof.
  intros Hsub. revert i. induction Hsub as [|y l k Hsub IH|y l k Hsub IH];
    intros i Hi.
  - done.
  - destruct i as [|i]; simpl in Hi.
    + exists 0%nat. split; [lia | done].
    + destruct (IH i Hi) as (j & Hle & Hj). exists (S j). split; [lia | done].
  - destruct (IH i Hi) as (j & Hle & Hj). exists (S j). split; [lia | done].
Qed.

(** X17. The position in a row's key never exceeds a position the item has
    in its section: a search can only move keys towards the front, and with
    the empty search string the key holds the item's own position. *)
Theorem key_position_at_most_original (checklist : ChecklistData)
    (searchQuery : string) (sectionName : string) (position : nat)
    (item : string) :
  filtered_items checklist searchQuery sectionName !! position = Some item →
  (∃ original, (position ≤ original)%nat
               ∧ section_items checklist sectionName !! original = Some item)
  ∧ (searchQuery = EmptyString →
     section_items checklist sectionName !! position = Some item).
Proof.
  intros Hrow. split.
  - eapply sublist_lookup_later; [| exact Hrow]. apply filterItems_sublist.
  - intros ->. exact Hrow.
Qed.

(** X17, at one input: the second Notes item, found at position 0 under a search string. *)
Lemma key_position_at_most_original_witness :
  ∃ original, (0 ≤ original)%nat
              ∧ section_items two_notes "Notes" !! original
                = Some "Record pressure".
Proof.
  destruct (key_position_at_most_original two_notes "pressure" "Notes" 0
              "Record pressure" eq_refl) as [Hlater _].
  exact Hlater.
Defined.

(** X18. With a dataset keyed by identifier the dropdown lists one item per
    record in the order of the dataset, the item values are the keys of the
    dataset and pairwise distinct, and the value of every item is found by
    the lookup that generate makes. *)
Theorem dropdown_lists_dataset (checklistData : list (string * ChecklistData)) :
  keyed_by_id checklistData →
  item_value <$> select_items checklistData = fst <$> checklistData
  ∧ item_label <$> select_items checklistData
    = (fun entry => title (snd entry)) <$> checklistData
  ∧ NoDup (item_value <$> select_items checklistData)
  ∧ Forall (fun item =>
              ∃ c, get_prop checklistData (item_value item) = Some c
                   ∧ title c = item_label item)
           (select_items checklistData).
Proof.
  intros Hkeyed. pose proof Hkeyed as [Hnd Hid].
  assert (item_value <$> select_items checklistData = fst <$> checklistData)
    as Hvalues.
  { clear Hnd Hkeyed. unfold select_items, checklists.
    induction Hid as [|[k c] l Hk Hid IH]; [done |].
    simpl in *. rewrite Hk. f_equal. exact IH. }
  split; [exact Hvalues |]. split; [| split].
  - unfold select_items, checklists. clear.
    induction checklistData as [|[k c] l IH]; [done |]. simpl. by f_equal.
  - by rewrite Hvalues.
  - apply Forall_forall. intros item Hitem.
    apply elem_of_select_items in Hitem as (k & c & Hin & ->). simpl.
    destruct (keyed_lookup _ _ _ Hkeyed Hin) as [Hget <-]. eauto.
Qed.

(** X18, at one input: the dropdown of the example dataset. *)
Lemma dropdown_lists_dataset_witness :
  item_value <$> select_items example_data = ["pump"; "press"].
Proof.
  destruct (dropdown_lists_dataset example_data example_data_keyed)
    as [Hvalues _].
  exact Hvalues.
Defined.
